(** * linksender.py: a shallow embedding

    The program reads a YouTube link, asks yt-dlp for the metadata of the
    videos behind it and forwards one formatted message per video to a
    fixed Telegram chat.  This file embeds the functions of
    [src/linksender.py] and states their properties.

    Conventions of the embedding.
    - Python values that the program reads out of dictionaries are
      [pyval]s; a dictionary is a [gmap string pyval].
    - A Python call either returns or raises; [outcome] records which.
      Only subclasses of [Exception] are modelled ([KeyboardInterrupt]
      and [SystemExit] are outside the embedding).
    - yt-dlp, the Telegram bot and [datetime] are external: they are an
      interface ([Services]) over an abstract world state, so that every
      theorem holds for every behaviour of these services.
    - Everything the program does to the outside (printing, API calls,
      sleeping) is appended to a trace of [event]s.
    - A string is the UTF-8 encoding of a Python string; what Python does
      character by character (matching a pattern, [strip]) is done on the
      code points read back from the bytes ([Utf8]).  White space is the
      list of [str.isspace]; the word characters beyond ASCII are those
      of the Unicode database, which is a parameter ([UnicodeData]). *)

From Stdlib Require Import ZArith String Ascii List Bool QArith Lia.
From stdpp Require Import base option list strings gmap pretty.

Open Scope Z_scope.
Open Scope string_scope.
Open Scope list_scope.

(** ** Python values and outcomes *)

Module Py.

(** The scalar values found in the fields of an info dictionary. *)
Inductive pyval : Type :=
| PyNone
| PyStr (s : string)
| PyInt (z : Z).

(** [bool(v)]. *)
Definition truthy (v : pyval) : bool :=
  match v with
  | PyNone => false
  | PyStr s => negb (String.eqb s "")
  | PyInt z => negb (Z.eqb z 0)
  end.

(** [str(v)], as used by an f-string replacement field. *)
Definition py_str (v : pyval) : string :=
  match v with
  | PyNone => "None"
  | PyStr s => s
  | PyInt z => pretty z
  end.

(** [a or b]. *)
Definition py_or (a b : pyval) : pyval := if truthy a then a else b.

(** [d.get(k)]: a missing key reads as [None]. *)
Definition get (d : gmap string pyval) (k : string) : pyval :=
  default PyNone (d !! k).

(** [d.get(k, dflt)]. *)
Definition get_default (d : gmap string pyval) (k : string) (dflt : pyval) : pyval :=
  default dflt (d !! k).

(** [k in d]. *)
Definition has_key (d : gmap string pyval) (k : string) : bool :=
  bool_decide (is_Some (d !! k)).

(** The exceptions the program distinguishes: [except TelegramError]
    catches the first only, [except Exception] catches both. *)
Inductive exn : Type :=
| TelegramError
| OtherException (name : string).

Definition is_TelegramError (e : exn) : bool :=
  match e with TelegramError => true | OtherException _ => false end.

Inductive outcome (A : Type) : Type :=
| Ret (a : A)
| Raise (e : exn).
Arguments Ret {A} a.
Arguments Raise {A} e.

(** [c in s] for a one-character [c]. *)
Fixpoint contains_char (c : ascii) (s : string) : bool :=
  match s with
  | EmptyString => false
  | String c' s' => Ascii.eqb c c' || contains_char c s'
  end.

(** Left padding with zeros up to [width] characters. *)
Definition zero_pad (width : nat) (s : string) : string :=
  string_of_list_ascii (repeat "0"%char (width - String.length s)) +:+ s.

(** The format specifications [:d] and [:02d] on an [int]; the sign
    counts in the width, and the zeros go between sign and digits. *)
Definition fmt_d (z : Z) : string := pretty z.

Definition fmt_02d (z : Z) : string :=
  if Z.ltb z 0 then "-" +:+ zero_pad 1 (pretty (- z)) else zero_pad 2 (pretty z).

End Py.
Import Py.

(** ** Code points *)

Module Utf8.

Definition byte (c : ascii) : N := N_of_ascii c.

Definition is_cont (c : ascii) : bool := ((128 <=? byte c) && (byte c <? 192))%N.

(** The second byte of a well-formed sequence: a continuation byte,
    in a range that leaves out the overlong forms, the surrogates and
    what lies beyond U+10FFFF. *)
Definition second_ok (b0 b1 : ascii) : bool :=
  (if byte b0 =? 224 then (160 <=? byte b1) && (byte b1 <? 192)
   else if byte b0 =? 237 then (128 <=? byte b1) && (byte b1 <? 160)
   else if byte b0 =? 240 then (144 <=? byte b1) && (byte b1 <? 192)
   else if byte b0 =? 244 then (128 <=? byte b1) && (byte b1 <? 144)
   else is_cont b1)%N.

(** The characters of a string, each as the bytes of one code point: a
    lead byte C2..DF takes one continuation byte, E0..EF two, F0..F4
    three; any other byte, or a lead byte without its continuation
    bytes, is a character of its own (the encoding of a Python string
    holds no such byte). *)
Fixpoint chars (s : string) : list string :=
  match s with
  | EmptyString => []
  | String b0 t0 =>
      let alone := String b0 EmptyString :: chars t0 in
      if (byte b0 <? 194)%N then alone
      else
        match t0 with
        | EmptyString => alone
        | String b1 t1 =>
            if negb (second_ok b0 b1) then alone
            else if (byte b0 <? 224)%N
            then String b0 (String b1 EmptyString) :: chars t1
            else
              match t1 with
              | EmptyString => alone
              | String b2 t2 =>
                  if negb (is_cont b2) then alone
                  else if (byte b0 <? 240)%N
                  then String b0 (String b1 (String b2 EmptyString)) :: chars t2
                  else
                    match t2 with
                    | EmptyString => alone
                    | String b3 t3 =>
                        if is_cont b3 && (byte b0 <? 245)%N
                        then String b0 (String b1 (String b2 (String b3 EmptyString)))
                             :: chars t3
                        else alone
                    end
              end
        end
  end.

(** The code point of a character; a byte that stands alone without
    being ASCII is read as Python's [surrogateescape] does. *)
Definition codepoint (ch : string) : N :=
  match ch with
  | String b0 EmptyString =>
      if (byte b0 <? 128)%N then byte b0 else (56320 + byte b0)%N
  | String b0 (String b1 EmptyString) =>
      ((byte b0 - 192) * 64 + (byte b1 - 128))%N
  | String b0 (String b1 (String b2 EmptyString)) =>
      ((byte b0 - 224) * 4096 + (byte b1 - 128) * 64 + (byte b2 - 128))%N
  | String b0 (String b1 (String b2 (String b3 EmptyString))) =>
      ((byte b0 - 240) * 262144 + (byte b1 - 128) * 4096
       + (byte b2 - 128) * 64 + (byte b3 - 128))%N
  | _ => 0%N
  end.

(** The code points of a string. *)
Definition decode (s : string) : list N := map codepoint (chars s).

(** The string made of the given characters. *)
Definition join (l : list string) : string := fold_right String.append EmptyString l.

End Utf8.
Import Utf8.

(** [Py_UNICODE_ISALNUM] beyond ASCII: the table of the Unicode database
    that Python is built with. *)
Class UnicodeData : Type := unicode_isalnum : N -> bool.

(** ** Regular expressions, as far as the three link patterns need them *)

Module Re.

(** A pattern over code points. *)
Inductive regex : Type :=
| Void
| Eps
| Class (p : N -> bool)
| Seq (r1 r2 : regex)
| Alt (r1 r2 : regex)
| Star (r : regex).

(** [r?], [r+] and a literal (ASCII) string. *)
Definition Opt (r : regex) : regex := Alt r Eps.
Definition Plus (r : regex) : regex := Seq r (Star r).
Fixpoint Lit (s : string) : regex :=
  match s with
  | EmptyString => Eps
  | String c s' => Seq (Class (N.eqb (N_of_ascii c))) (Lit s')
  end.

(** The words of a regular expression. *)
Inductive lang : regex -> list N -> Prop :=
| lang_eps : lang Eps []
| lang_class p c : p c = true -> lang (Class p) [c]
| lang_seq r1 r2 s1 s2 :
    lang r1 s1 -> lang r2 s2 -> lang (Seq r1 r2) (s1 ++ s2)
| lang_alt_l r1 r2 s : lang r1 s -> lang (Alt r1 r2) s
| lang_alt_r r1 r2 s : lang r2 s -> lang (Alt r1 r2) s
| lang_star_nil r : lang (Star r) []
| lang_star_cons r s1 s2 :
    lang r s1 -> lang (Star r) s2 -> lang (Star r) (s1 ++ s2).

Fixpoint nullable (r : regex) : bool :=
  match r with
  | Void => false
  | Eps => true
  | Class _ => false
  | Seq r1 r2 => nullable r1 && nullable r2
  | Alt r1 r2 => nullable r1 || nullable r2
  | Star _ => true
  end.

Fixpoint deriv (c : N) (r : regex) : regex :=
  match r with
  | Void => Void
  | Eps => Void
  | Class p => if p c then Eps else Void
  | Seq r1 r2 =>
      if nullable r1
      then Alt (Seq (deriv c r1) r2) (deriv c r2)
      else Seq (deriv c r1) r2
  | Alt r1 r2 => Alt (deriv c r1) (deriv c r2)
  | Star r1 => Seq (deriv c r1) (Star r1)
  end.

(** [bool(pattern.match(s))] on the code points of [s]: does the
    pattern match at the start?  [re.match] does not look at what
    follows the match. *)
Fixpoint re_match (r : regex) (s : list N) : bool :=
  nullable r ||
  match s with
  | [] => false
  | c :: s' => re_match (deriv c r) s'
  end.

(** [\w] in a [str] pattern: the ASCII letters and digits and the
    underscore, and beyond ASCII what the Unicode database calls
    alphanumeric; and the class [[\w-]]. *)
Definition is_word {UD : UnicodeData} (c : N) : bool :=
  if (c <? 128)%N
  then ((48 <=? c) && (c <=? 57) || (65 <=? c) && (c <=? 90)
        || (97 <=? c) && (c <=? 122) || (c =? 95))%N
  else unicode_isalnum c.

Definition is_word_or_dash {UD : UnicodeData} (c : N) : bool :=
  is_word c || (c =? 45)%N.

End Re.
Import Re.

(** ** Constants of the program *)

Section Patterns.
Context {UD : UnicodeData}.

(** [(https?://)?(www\.)?], the common head of the three patterns. *)
Definition SCHEME_WWW : regex :=
  Seq (Opt (Seq (Lit "http") (Seq (Opt (Lit "s")) (Lit "://"))))
      (Opt (Lit "www.")).

Definition YOUTUBE_VIDEO_REGEX : regex :=
  Seq SCHEME_WWW
      (Seq (Alt (Lit "youtube.com/watch?v=") (Lit "youtu.be/"))
           (Plus (Class is_word_or_dash))).

Definition YOUTUBE_PLAYLIST_REGEX : regex :=
  Seq SCHEME_WWW
      (Seq (Lit "youtube.com/playlist?list=") (Plus (Class is_word_or_dash))).

Definition YOUTUBE_CHANNEL_REGEX : regex :=
  Seq SCHEME_WWW
      (Seq (Lit "youtube.com/")
           (Seq (Alt (Lit "channel/") (Alt (Lit "c/") (Lit "user/")))
                (Plus (Class is_word_or_dash)))).

End Patterns.

Definition TELEGRAM_CHAT_ID : string := "6956029558".

Definition MSG_INVALID_LINK : string := "❌ Invalid YouTube link".
Definition MSG_NO_VIDEOS : string := "⚠️ No videos found.".
Definition MSG_SEND_FAILED : string := "⚠️ Retry sending failed message.".

Definition MSG_FETCHING : string := "🔎 Fetching videos from given link...".

Definition nl : string := String "010" "".

(** The line printed once the listing is known, and the status line
    printed before each send. *)
Definition found_line (count : nat) (mode : string) : string :=
  "📂 Found " +:+ pretty (Z.of_nat count) +:+ " videos in "
  +:+ (if String.eqb mode "2" then "playlist" else "channel").

Definition sending_line (title : pyval) : string :=
  "➡️ Sending: [" +:+ py_str title +:+ "]".

(** ** The pure functions *)

Definition validate_link {UD : UnicodeData} (link mode : string) : bool :=
  if String.eqb mode "1" then re_match YOUTUBE_VIDEO_REGEX (decode link)
  else if String.eqb mode "2" then re_match YOUTUBE_PLAYLIST_REGEX (decode link)
  else if String.eqb mode "3" then re_match YOUTUBE_CHANNEL_REGEX (decode link)
  else false.

(** [format_duration]: [divmod] on a string raises [TypeError]. *)
Definition format_duration (seconds : pyval) : outcome string :=
  match seconds with
  | PyNone => Ret "Unknown"
  | PyInt sec =>
      let m := sec / 60 in
      let s := sec mod 60 in
      let h := m / 60 in
      let m := m mod 60 in
      if negb (Z.eqb h 0)
      then Ret (fmt_d h +:+ ":" +:+ fmt_02d m +:+ ":" +:+ fmt_02d s)
      else Ret (fmt_d m +:+ ":" +:+ fmt_02d s)
  | PyStr _ => Raise (OtherException "TypeError")
  end.
(** ** The external services and the effects of the program *)

(** The option dictionary handed to [YoutubeDL]. *)
Record ydl_opts : Type := {
  quiet : bool;
  skip_download : bool;
  ignoreerrors : bool;
  extract_flat : bool;
  forceurl : bool;
  nocheckcertificate : bool
}.

(** What [extract_info] returns: a dictionary of scalar [fields]
    ([title], [id], [url], ...) and, under the key [entries], possibly a
    listing.  [entries = None]: no such key; [Some None]: the key holds
    [None]; [Some (Some es)]: the key holds the list [es].  An entry of
    the listing is a dictionary ([Some d]) or, as yt-dlp lists what it
    could not resolve when errors are ignored, [None]. *)
Record info_dict : Type := {
  fields : gmap string pyval;
  entries : option (option (list (option (gmap string pyval))))
}.

(** [bool(info)]: a dictionary is true when it has a key. *)
Definition info_truthy (info : info_dict) : bool :=
  negb (bool_decide (fields info = ∅)) || bool_decide (is_Some (entries info)).

(** What the program does to the outside, in order; a call to a service
    is logged with what the service answered. *)
Inductive event : Type :=
| EPrint (line : string)
| EExtract (opts : ydl_opts) (url : string) (reply : outcome (option info_dict))
| ESendPhoto (chat_id : string) (photo : pyval) (caption : string) (reply : outcome unit)
| ESendMessage (chat_id : string) (text : string) (reply : outcome unit)
| ESleep (seconds : Q).

(** The services behind the program, over a world state [W] of their own:
    [YoutubeDL(opts).extract_info(url, download=False)], the two calls
    of the bot, and the two [datetime] functions ([strptime] returns
    [None] where Python raises [ValueError]). *)
Class Services (W : Type) : Type := {
  extract_info : ydl_opts -> string -> W -> outcome (option info_dict) * W;
  send_photo : string -> pyval -> string -> W -> outcome unit * W;
  send_message : string -> string -> W -> outcome unit * W;
  datetime : Type;
  strptime : string -> string -> option datetime;
  strftime : datetime -> string -> string
}.

(** A computation of the program: it runs on the world and the trace so
    far, returns or raises, and leaves a new world and trace. *)
Definition M (W A : Type) : Type :=
  W * list event -> outcome A * (W * list event).

Definition ret {W A} (a : A) : M W A := fun st => (Ret a, st).

Definition bind {W A B} (m : M W A) (k : A -> M W B) : M W B :=
  fun st =>
    match m st with
    | (Ret a, st') => k a st'
    | (Raise e, st') => (Raise e, st')
    end.

Notation "x <- m ;; k" := (bind m (fun x => k))
  (at level 100, m at next level, right associativity).
Notation "m ;;; k" := (bind m (fun _ => k))
  (at level 100, right associativity).

(** [try: m  except C: h], where [catches] tells the exceptions of
    class [C]. *)
Definition try_except {W A} (catches : exn -> bool) (m : M W A) (h : M W A) : M W A :=
  fun st =>
    match m st with
    | (Ret a, st') => (Ret a, st')
    | (Raise e, st') => if catches e then h st' else (Raise e, st')
    end.

Definition except_Exception (e : exn) : bool := true.
Definition except_TelegramError (e : exn) : bool := is_TelegramError e.

Definition lift {W A} (o : outcome A) : M W A := fun st => (o, st).

Definition emit {W} (ev : event) : M W unit :=
  fun '(w, tr) => (Ret tt, (w, tr ++ [ev])).

Definition print {W} (line : string) : M W unit := emit (EPrint line).

Definition sleep {W} (seconds : Q) : M W unit := emit (ESleep seconds).

Section Program.
Context {W : Type} `{!Services W}.

Definition call_extract_info (opts : ydl_opts) (url : string) : M W (option info_dict) :=
  fun '(w, tr) =>
    let '(r, w') := extract_info opts url w in
    (r, (w', tr ++ [EExtract opts url r])).

Definition call_send_photo (chat_id : string) (photo : pyval) (caption : string) : M W unit :=
  fun '(w, tr) =>
    let '(r, w') := send_photo chat_id photo caption w in
    (r, (w', tr ++ [ESendPhoto chat_id photo caption r])).

Definition call_send_message (chat_id text : string) : M W unit :=
  fun '(w, tr) =>
    let '(r, w') := send_message chat_id text w in
    (r, (w', tr ++ [ESendMessage chat_id text r])).

(** [format_date]: every exception inside ends in ["Unknown"]; the test
    ['-' in date_str] raises on a value that is not a string. *)
Definition format_date (date_str : pyval) : string :=
  match date_str with
  | PyStr s =>
      let parsed :=
        if contains_char "-" s then strptime s "%Y-%m-%d" else strptime s "%Y%m%d" in
      match parsed with
      | Some dt => strftime dt "%Y-%m-%d"
      | None => "Unknown"
      end
  | _ => "Unknown"
  end.

(** The options built at the head of [fetch_videos_info]. *)
Definition make_ydl_opts (mode : string) : ydl_opts :=
  {| quiet := true;
     skip_download := true;
     ignoreerrors := true;
     extract_flat := if String.eqb mode "2" || String.eqb mode "3" then true else false;
     forceurl := true;
     nocheckcertificate := true |}.

(** The URL composed for a listed entry, [None] where the loop says
    [continue]. *)
Definition entry_video_url (e : gmap string pyval) : option string :=
  if has_key e "url" then Some ("https://youtu.be/" +:+ py_str (get e "url"))
  else if has_key e "id" then Some ("https://youtu.be/" +:+ py_str (get e "id"))
  else None.

(** The loop [for e in entries] of [fetch_videos_info]; [ydl] is the
    object built before the loop, so [opts] are its options, and
    [videos] is the list filled so far.  The test ['url' in e] is made
    before the [try]: on an entry that is [None] it raises [TypeError],
    which leaves the loop and the function. *)
Fixpoint fetch_entries (opts : ydl_opts) (es : list (option (gmap string pyval)))
         (videos : list info_dict) : M W (list info_dict) :=
  match es with
  | [] => ret videos
  | None :: _ => lift (Raise (OtherException "TypeError"))
  | Some e :: rest =>
      match entry_video_url e with
      | None => fetch_entries opts rest videos
      | Some video_url =>
          videos' <-
            try_except except_Exception
              (video_info <- call_extract_info opts video_url ;;
               match video_info with
               | Some vi => if info_truthy vi then ret (videos ++ [vi]) else ret videos
               | None => ret videos
               end)
              (ret videos) ;;
          fetch_entries opts rest videos'
      end
  end.

(** [fetch_videos_info] returns the pair [(videos, error)], one of the
    two being [None]. *)
Definition fetch_videos_info (url mode : string)
  : M W (option (list info_dict) * option string) :=
  print MSG_FETCHING ;;;
  let opts := make_ydl_opts mode in
  attempt <-
    try_except except_Exception
      (info <- call_extract_info opts url ;; ret (Some info))
      (ret None) ;;
  match attempt with
  | None => ret (None, Some MSG_INVALID_LINK)
  | Some None => ret (None, Some MSG_NO_VIDEOS)
  | Some (Some info) =>
      if String.eqb mode "1" then
        if negb (has_key (fields info) "title")
        then ret (None, Some MSG_NO_VIDEOS)
        else ret (Some [info], None)
      else
        match default (Some []) (entries info) with
        | None | Some [] => ret (None, Some MSG_NO_VIDEOS)
        | Some es =>
            print (found_line (length es) mode) ;;;
            videos <- fetch_entries opts es [] ;;
            match videos with
            | [] => ret (None, Some MSG_NO_VIDEOS)
            | _ => ret (Some videos, None)
            end
        end
  end.

(** Line 136: [video.get('webpage_url') or video.get('url') or
    "https://youtu.be/" + video.get('id', '')]; [str + v] raises
    [TypeError] unless [v] is a string. *)
Definition video_link (video : info_dict) : outcome pyval :=
  if truthy (get (fields video) "webpage_url") then Ret (get (fields video) "webpage_url")
  else if truthy (get (fields video) "url") then Ret (get (fields video) "url")
  else match get_default (fields video) "id" (PyStr "") with
       | PyStr i => Ret (PyStr ("https://youtu.be/" +:+ i))
       | _ => Raise (OtherException "TypeError")
       end.

Definition make_caption (title url : pyval) (duration upload_date : string) : string :=
  "🎬 Title: " +:+ py_str title +:+ nl +:+
  "🔗 Link: " +:+ py_str url +:+ nl +:+
  "⏱ Duration: " +:+ duration +:+ nl +:+
  "📅 Date: " +:+ upload_date.

(** The caption of a record: lines 135 to 145 of [send_video_info]. *)
Definition video_caption (video : info_dict) : outcome string :=
  let title := get_default (fields video) "title" (PyStr "Unknown Title") in
  match video_link video with
  | Raise e => Raise e
  | Ret url =>
      match format_duration (get (fields video) "duration") with
      | Raise e => Raise e
      | Ret duration =>
          let upload_date := format_date (get_default (fields video) "upload_date" (PyStr "")) in
          Ret (make_caption title url duration upload_date)
      end
  end.

Definition send_video_info (video : info_dict) : M W bool :=
  let thumbnail := get (fields video) "thumbnail" in
  caption <- lift (video_caption video) ;;
  try_except except_TelegramError
    ((if truthy thumbnail
      then call_send_photo TELEGRAM_CHAT_ID thumbnail caption
      else call_send_message TELEGRAM_CHAT_ID caption) ;;;
     ret true)
    (ret false).

(** The loop [for idx, video in enumerate(videos, 1)] of [main]. *)
Fixpoint send_all (videos : list info_dict) : M W unit :=
  match videos with
  | [] => ret tt
  | video :: rest =>
      let title := get_default (fields video) "title" (PyStr "Unknown Title") in
      print (sending_line title) ;;;
      success <- send_video_info video ;;
      (if negb success
       then print MSG_SEND_FAILED
       else sleep (1 # 2)) ;;;
      send_all rest
  end.

End Program.
(** ** Notions used to state the properties *)

(** The pattern [validate_link] applies in each mode. *)
Definition link_pattern {UD : UnicodeData} (mode : string) : option regex :=
  if String.eqb mode "1" then Some YOUTUBE_VIDEO_REGEX
  else if String.eqb mode "2" then Some YOUTUBE_PLAYLIST_REGEX
  else if String.eqb mode "3" then Some YOUTUBE_CHANNEL_REGEX
  else None.

(** A sequence of code points begins with a word of [r]. *)
Definition has_prefix_in (r : regex) (s : list N) : Prop :=
  exists p t, s = p ++ t /\ lang r p.

(** The two decimal digits of a number below one hundred. *)
Definition digit (d : Z) : ascii := ascii_of_N (48 + Z.to_N d).
Definition two_digits (x : Z) : string :=
  String (digit (x / 10)) (String (digit (x mod 10)) "").

(** The rendering of a duration the way the specification words it:
    [H:MM:SS] when the hours are positive, [M:SS] otherwise. *)
Definition duration_by_positive_hours (sec : Z) : string :=
  let h := sec / 60 / 60 in
  let m := (sec / 60) mod 60 in
  let s := sec mod 60 in
  if Z.ltb 0 h
  then pretty h +:+ ":" +:+ two_digits m +:+ ":" +:+ two_digits s
  else pretty m +:+ ":" +:+ two_digits s.

(** The link of a record the way the specification words it: the first
    of [webpage_url] and [url] that is present, else the short link made
    from [id]. *)
Definition link_by_presence (video : info_dict) : pyval :=
  match fields video !! "webpage_url" with
  | Some v => v
  | None =>
      match fields video !! "url" with
      | Some v => v
      | None => PyStr ("https://youtu.be/" +:+ py_str (get_default (fields video) "id" (PyStr "")))
      end
  end.

(** The record a second-phase answer contributes, if any. *)
Definition kept_reply (reply : outcome (option info_dict)) : option info_dict :=
  match reply with
  | Ret (Some vi) => if info_truthy vi then Some vi else None
  | Ret None => None
  | Raise _ => None
  end.

(** The entries of a listing that the loop of the fetcher reaches:
    those before the first [None]. *)
Fixpoint reached (es : list (option (gmap string pyval))) : list (gmap string pyval) :=
  match es with
  | Some e :: rest => e :: reached rest
  | _ => []
  end.

(** The listing holds a [None]. *)
Definition lists_none (es : list (option (gmap string pyval))) : bool :=
  existsb (fun e => match e with None => true | Some _ => false end) es.

(** What the notifier makes of the answer of the bot. *)
Definition send_outcome (reply : outcome unit) : outcome bool :=
  match reply with
  | Ret _ => Ret true
  | Raise TelegramError => Ret false
  | Raise e => Raise e
  end.

Definition is_send (ev : event) : bool :=
  match ev with
  | ESendPhoto _ _ _ _ | ESendMessage _ _ _ => true
  | _ => false
  end.

Definition is_extract (ev : event) : bool :=
  match ev with
  | EExtract _ _ _ => true
  | _ => false
  end.

(** Every send attempt but the first comes after a half-second sleep
    that follows the attempt before it; [pending] tells that an attempt
    was made and no sleep has followed it yet. *)
Fixpoint delay_between_sends (pending : bool) (tr : list event) : bool :=
  match tr with
  | [] => true
  | ESleep q :: tr' =>
      if Qeq_bool q (1 # 2) then delay_between_sends false tr'
      else delay_between_sends pending tr'
  | ev :: tr' =>
      if is_send ev then negb pending && delay_between_sends true tr'
      else delay_between_sends pending tr'
  end.

Section TraceShapes.
Context {W : Type} `{!Services W}.

(** What the extraction service answers when asked for each of the
    URLs in turn, and the world it is left in. *)
Fixpoint ask_each (opts : ydl_opts) (urls : list string) (w : W)
  : list (outcome (option info_dict)) * W :=
  match urls with
  | [] => ([], w)
  | u :: us =>
      let '(reply, w1) := extract_info opts u w in
      let '(replies, w') := ask_each opts us w1 in
      (reply :: replies, w')
  end.

(** The one call [send_video_info] makes for a record with the given
    caption, logged with the answer of the bot. *)
Definition send_event (video : info_dict) (caption : string) (reply : outcome unit) : event :=
  let thumbnail := get (fields video) "thumbnail" in
  if truthy thumbnail
  then ESendPhoto TELEGRAM_CHAT_ID thumbnail caption reply
  else ESendMessage TELEGRAM_CHAT_ID caption reply.

(** The events of a sending phase over the given records: for each
    record in turn its status line and one send attempt, followed by
    the half-second sleep when the attempt succeeded and by the
    warning line when it failed. *)
Inductive sending_trace : list info_dict -> list event -> Prop :=
| sending_done : sending_trace [] []
| sending_sent video rest caption tr :
    video_caption video = Ret caption ->
    sending_trace rest tr ->
    sending_trace (video :: rest)
      (EPrint (sending_line (get_default (fields video) "title" (PyStr "Unknown Title")))
       :: send_event video caption (Ret tt)
       :: ESleep (1 # 2) :: tr)
| sending_failed video rest caption tr :
    video_caption video = Ret caption ->
    sending_trace rest tr ->
    sending_trace (video :: rest)
      (EPrint (sending_line (get_default (fields video) "title" (PyStr "Unknown Title")))
       :: send_event video caption (Raise TelegramError)
       :: EPrint MSG_SEND_FAILED :: tr).

End TraceShapes.

(** The URL an extraction event asked for. *)
Definition extract_url (ev : event) : option string :=
  match ev with
  | EExtract _ url _ => Some url
  | _ => None
  end.
(** ** A scripted stand-in for the services

    The world is the list of answers still to be given: an extraction
    answers with the head of [extract_script] (no record once the script
    is used up), a send succeeds or fails with [TelegramError] as the
    head of [send_script] says (succeeds once it is used up).  Its
    [strptime] rejects every string. *)
Module Script.

Record script : Type := {
  extract_script : list (outcome (option info_dict));
  send_script : list bool
}.

Definition next_extract (w : script) : outcome (option info_dict) * script :=
  match extract_script w with
  | [] => (Ret None, w)
  | r :: rs => (r, {| extract_script := rs; send_script := send_script w |})
  end.

Definition next_send (w : script) : outcome unit * script :=
  match send_script w with
  | [] => (Ret tt, w)
  | ok :: rest =>
      (if ok then Ret tt else Raise TelegramError,
       {| extract_script := extract_script w; send_script := rest |})
  end.

#[export] Instance scripted : Services script := {|
  extract_info := fun _ _ => next_extract;
  send_photo := fun _ _ _ => next_send;
  send_message := fun _ _ => next_send;
  datetime := unit;
  strptime := fun _ _ => None;
  strftime := fun _ _ => ""
|}.

Definition record_of (kvs : list (string * pyval)) : info_dict :=
  {| fields := list_to_map kvs; entries := None |}.

Definition listing_of (es : list (list (string * pyval))) : info_dict :=
  {| fields := ∅; entries := Some (Some (map (fun kvs => Some (list_to_map kvs)) es)) |}.

End Script.

(** ** Sample records, listings and scripts *)
Module Samples.
Import Script.

Definition playlist_url : string := "https://www.youtube.com/playlist?list=PL123".
Definition video_url : string := "https://www.youtube.com/watch?v=abc123".

Definition rec_demo : info_dict :=
  record_of [("title", PyStr "Demo"); ("duration", PyInt 125);
             ("upload_date", PyStr "20230101"); ("id", PyStr "abc123")].

Definition rec_clip : info_dict :=
  record_of [("title", PyStr "Clip"); ("duration", PyInt 65);
             ("webpage_url", PyStr "https://www.youtube.com/watch?v=xyz789");
             ("thumbnail", PyStr "https://i.ytimg.com/vi/xyz789/hq.jpg")].

Definition rec_only_id : info_dict := record_of [("id", PyStr "abc123")].

(** A record whose [webpage_url] is there and empty. *)
Definition rec_empty_webpage_url : info_dict :=
  record_of [("webpage_url", PyStr ""); ("url", PyStr video_url);
             ("id", PyStr "abc123")].

Definition five_entries : list (gmap string pyval) :=
  map list_to_map
      [[("id", PyStr "v1")]; [("id", PyStr "v2")]; [("url", PyStr "v3")];
       [("id", PyStr "v4")]; [("id", PyStr "v5")]].

Definition listing5 : info_dict :=
  {| fields := ∅; entries := Some (Some (map Some five_entries)) |}.

Definition one_entry : list (gmap string pyval) :=
  map list_to_map [[("id", PyStr "v1")]].

Definition listing1 : info_dict :=
  {| fields := ∅; entries := Some (Some (map Some one_entry)) |}.

(** A listing whose second entry is [None]. *)
Definition listing_with_none : info_dict :=
  {| fields := ∅;
     entries := Some (Some [Some (list_to_map [("id", PyStr "v1")]); None;
                            Some (list_to_map [("id", PyStr "v3")])]) |}.

Definition download_error : outcome (option info_dict) :=
  Raise (OtherException "DownloadError").

(** The answers to the five second-phase calls: three fail. *)
Definition three_of_five_fail : script :=
  {| extract_script := [download_error; Ret (Some rec_demo); Ret None;
                        download_error; Ret (Some rec_clip)];
     send_script := [] |}.

Definition listing_then (rest : script) : script :=
  {| extract_script := Ret (Some listing5) :: extract_script rest;
     send_script := send_script rest |}.

Definition one_entry_answers : script :=
  {| extract_script := [Ret (Some rec_demo)]; send_script := [] |}.

Definition one_entry_listing : script :=
  {| extract_script := [Ret (Some listing1); Ret (Some rec_demo)]; send_script := [] |}.

Definition none_entry_listing : script :=
  {| extract_script := [Ret (Some listing_with_none); Ret (Some rec_demo);
                        Ret (Some rec_clip)];
     send_script := [] |}.

Definition listing_raises : script :=
  {| extract_script := [download_error]; send_script := [] |}.

Definition nothing_scripted : script :=
  {| extract_script := []; send_script := [] |}.

Definition first_send_fails : script :=
  {| extract_script := []; send_script := [false; true] |}.

End Samples.

(** ** The Unicode table

    The ranges, beyond ASCII, of the code points that Unicode 14.0.0
    (the database of CPython 3.11) makes alphabetic, decimal, digit or
    numeric: what [str.isalnum] and [\w] accept there. *)
Module Unicode14.

Definition alnum_ranges : list (N * N) :=
  [
   (170, 170); (178, 179); (181, 181); (185, 186); (188, 190); (192, 214);
   (216, 246); (248, 705); (710, 721); (736, 740); (748, 748); (750, 750);
   (880, 884); (886, 887); (890, 893); (895, 895); (902, 902); (904, 906);
   (908, 908); (910, 929); (931, 1013); (1015, 1153); (1162, 1327);
   (1329, 1366); (1369, 1369); (1376, 1416); (1488, 1514); (1519, 1522);
   (1568, 1610); (1632, 1641); (1646, 1647); (1649, 1747); (1749, 1749);
   (1765, 1766); (1774, 1788); (1791, 1791); (1808, 1808); (1810, 1839);
   (1869, 1957); (1969, 1969); (1984, 2026); (2036, 2037); (2042, 2042);
   (2048, 2069); (2074, 2074); (2084, 2084); (2088, 2088); (2112, 2136);
   (2144, 2154); (2160, 2183); (2185, 2190); (2208, 2249); (2308, 2361);
   (2365, 2365); (2384, 2384); (2392, 2401); (2406, 2415); (2417, 2432);
   (2437, 2444); (2447, 2448); (2451, 2472); (2474, 2480); (2482, 2482);
   (2486, 2489); (2493, 2493); (2510, 2510); (2524, 2525); (2527, 2529);
   (2534, 2545); (2548, 2553); (2556, 2556); (2565, 2570); (2575, 2576);
   (2579, 2600); (2602, 2608); (2610, 2611); (2613, 2614); (2616, 2617);
   (2649, 2652); (2654, 2654); (2662, 2671); (2674, 2676); (2693, 2701);
   (2703, 2705); (2707, 2728); (2730, 2736); (2738, 2739); (2741, 2745);
   (2749, 2749); (2768, 2768); (2784, 2785); (2790, 2799); (2809, 2809);
   (2821, 2828); (2831, 2832); (2835, 2856); (2858, 2864); (2866, 2867);
   (2869, 2873); (2877, 2877); (2908, 2909); (2911, 2913); (2918, 2927);
   (2929, 2935); (2947, 2947); (2949, 2954); (2958, 2960); (2962, 2965);
   (2969, 2970); (2972, 2972); (2974, 2975); (2979, 2980); (2984, 2986);
   (2990, 3001); (3024, 3024); (3046, 3058); (3077, 3084); (3086, 3088);
   (3090, 3112); (3114, 3129); (3133, 3133); (3160, 3162); (3165, 3165);
   (3168, 3169); (3174, 3183); (3192, 3198); (3200, 3200); (3205, 3212);
   (3214, 3216); (3218, 3240); (3242, 3251); (3253, 3257); (3261, 3261);
   (3293, 3294); (3296, 3297); (3302, 3311); (3313, 3314); (3332, 3340);
   (3342, 3344); (3346, 3386); (3389, 3389); (3406, 3406); (3412, 3414);
   (3416, 3425); (3430, 3448); (3450, 3455); (3461, 3478); (3482, 3505);
   (3507, 3515); (3517, 3517); (3520, 3526); (3558, 3567); (3585, 3632);
   (3634, 3635); (3648, 3654); (3664, 3673); (3713, 3714); (3716, 3716);
   (3718, 3722); (3724, 3747); (3749, 3749); (3751, 3760); (3762, 3763);
   (3773, 3773); (3776, 3780); (3782, 3782); (3792, 3801); (3804, 3807);
   (3840, 3840); (3872, 3891); (3904, 3911); (3913, 3948); (3976, 3980);
   (4096, 4138); (4159, 4169); (4176, 4181); (4186, 4189); (4193, 4193);
   (4197, 4198); (4206, 4208); (4213, 4225); (4238, 4238); (4240, 4249);
   (4256, 4293); (4295, 4295); (4301, 4301); (4304, 4346); (4348, 4680);
   (4682, 4685); (4688, 4694); (4696, 4696); (4698, 4701); (4704, 4744);
   (4746, 4749); (4752, 4784); (4786, 4789); (4792, 4798); (4800, 4800);
   (4802, 4805); (4808, 4822); (4824, 4880); (4882, 4885); (4888, 4954);
   (4969, 4988); (4992, 5007); (5024, 5109); (5112, 5117); (5121, 5740);
   (5743, 5759); (5761, 5786); (5792, 5866); (5870, 5880); (5888, 5905);
   (5919, 5937); (5952, 5969); (5984, 5996); (5998, 6000); (6016, 6067);
   (6103, 6103); (6108, 6108); (6112, 6121); (6128, 6137); (6160, 6169);
   (6176, 6264); (6272, 6276); (6279, 6312); (6314, 6314); (6320, 6389);
   (6400, 6430); (6470, 6509); (6512, 6516); (6528, 6571); (6576, 6601);
   (6608, 6618); (6656, 6678); (6688, 6740); (6784, 6793); (6800, 6809);
   (6823, 6823); (6917, 6963); (6981, 6988); (6992, 7001); (7043, 7072);
   (7086, 7141); (7168, 7203); (7232, 7241); (7245, 7293); (7296, 7304);
   (7312, 7354); (7357, 7359); (7401, 7404); (7406, 7411); (7413, 7414);
   (7418, 7418); (7424, 7615); (7680, 7957); (7960, 7965); (7968, 8005);
   (8008, 8013); (8016, 8023); (8025, 8025); (8027, 8027); (8029, 8029);
   (8031, 8061); (8064, 8116); (8118, 8124); (8126, 8126); (8130, 8132);
   (8134, 8140); (8144, 8147); (8150, 8155); (8160, 8172); (8178, 8180);
   (8182, 8188); (8304, 8305); (8308, 8313); (8319, 8329); (8336, 8348);
   (8450, 8450); (8455, 8455); (8458, 8467); (8469, 8469); (8473, 8477);
   (8484, 8484); (8486, 8486); (8488, 8488); (8490, 8493); (8495, 8505);
   (8508, 8511); (8517, 8521); (8526, 8526); (8528, 8585); (9312, 9371);
   (9450, 9471); (10102, 10131); (11264, 11492); (11499, 11502);
   (11506, 11507); (11517, 11517); (11520, 11557); (11559, 11559);
   (11565, 11565); (11568, 11623); (11631, 11631); (11648, 11670);
   (11680, 11686); (11688, 11694); (11696, 11702); (11704, 11710);
   (11712, 11718); (11720, 11726); (11728, 11734); (11736, 11742);
   (11823, 11823); (12293, 12295); (12321, 12329); (12337, 12341);
   (12344, 12348); (12353, 12438); (12445, 12447); (12449, 12538);
   (12540, 12543); (12549, 12591); (12593, 12686); (12690, 12693);
   (12704, 12735); (12784, 12799); (12832, 12841); (12872, 12879);
   (12881, 12895); (12928, 12937); (12977, 12991); (13312, 19903);
   (19968, 42124); (42192, 42237); (42240, 42508); (42512, 42539);
   (42560, 42606); (42623, 42653); (42656, 42735); (42775, 42783);
   (42786, 42888); (42891, 42954); (42960, 42961); (42963, 42963);
   (42965, 42969); (42994, 43009); (43011, 43013); (43015, 43018);
   (43020, 43042); (43056, 43061); (43072, 43123); (43138, 43187);
   (43216, 43225); (43250, 43255); (43259, 43259); (43261, 43262);
   (43264, 43301); (43312, 43334); (43360, 43388); (43396, 43442);
   (43471, 43481); (43488, 43492); (43494, 43518); (43520, 43560);
   (43584, 43586); (43588, 43595); (43600, 43609); (43616, 43638);
   (43642, 43642); (43646, 43695); (43697, 43697); (43701, 43702);
   (43705, 43709); (43712, 43712); (43714, 43714); (43739, 43741);
   (43744, 43754); (43762, 43764); (43777, 43782); (43785, 43790);
   (43793, 43798); (43808, 43814); (43816, 43822); (43824, 43866);
   (43868, 43881); (43888, 44002); (44016, 44025); (44032, 55203);
   (55216, 55238); (55243, 55291); (63744, 64109); (64112, 64217);
   (64256, 64262); (64275, 64279); (64285, 64285); (64287, 64296);
   (64298, 64310); (64312, 64316); (64318, 64318); (64320, 64321);
   (64323, 64324); (64326, 64433); (64467, 64829); (64848, 64911);
   (64914, 64967); (65008, 65019); (65136, 65140); (65142, 65276);
   (65296, 65305); (65313, 65338); (65345, 65370); (65382, 65470);
   (65474, 65479); (65482, 65487); (65490, 65495); (65498, 65500);
   (65536, 65547); (65549, 65574); (65576, 65594); (65596, 65597);
   (65599, 65613); (65616, 65629); (65664, 65786); (65799, 65843);
   (65856, 65912); (65930, 65931); (66176, 66204); (66208, 66256);
   (66273, 66299); (66304, 66339); (66349, 66378); (66384, 66421);
   (66432, 66461); (66464, 66499); (66504, 66511); (66513, 66517);
   (66560, 66717); (66720, 66729); (66736, 66771); (66776, 66811);
   (66816, 66855); (66864, 66915); (66928, 66938); (66940, 66954);
   (66956, 66962); (66964, 66965); (66967, 66977); (66979, 66993);
   (66995, 67001); (67003, 67004); (67072, 67382); (67392, 67413);
   (67424, 67431); (67456, 67461); (67463, 67504); (67506, 67514);
   (67584, 67589); (67592, 67592); (67594, 67637); (67639, 67640);
   (67644, 67644); (67647, 67669); (67672, 67702); (67705, 67742);
   (67751, 67759); (67808, 67826); (67828, 67829); (67835, 67867);
   (67872, 67897); (67968, 68023); (68028, 68047); (68050, 68096);
   (68112, 68115); (68117, 68119); (68121, 68149); (68160, 68168);
   (68192, 68222); (68224, 68255); (68288, 68295); (68297, 68324);
   (68331, 68335); (68352, 68405); (68416, 68437); (68440, 68466);
   (68472, 68497); (68521, 68527); (68608, 68680); (68736, 68786);
   (68800, 68850); (68858, 68899); (68912, 68921); (69216, 69246);
   (69248, 69289); (69296, 69297); (69376, 69415); (69424, 69445);
   (69457, 69460); (69488, 69505); (69552, 69579); (69600, 69622);
   (69635, 69687); (69714, 69743); (69745, 69746); (69749, 69749);
   (69763, 69807); (69840, 69864); (69872, 69881); (69891, 69926);
   (69942, 69951); (69956, 69956); (69959, 69959); (69968, 70002);
   (70006, 70006); (70019, 70066); (70081, 70084); (70096, 70106);
   (70108, 70108); (70113, 70132); (70144, 70161); (70163, 70187);
   (70272, 70278); (70280, 70280); (70282, 70285); (70287, 70301);
   (70303, 70312); (70320, 70366); (70384, 70393); (70405, 70412);
   (70415, 70416); (70419, 70440); (70442, 70448); (70450, 70451);
   (70453, 70457); (70461, 70461); (70480, 70480); (70493, 70497);
   (70656, 70708); (70727, 70730); (70736, 70745); (70751, 70753);
   (70784, 70831); (70852, 70853); (70855, 70855); (70864, 70873);
   (71040, 71086); (71128, 71131); (71168, 71215); (71236, 71236);
   (71248, 71257); (71296, 71338); (71352, 71352); (71360, 71369);
   (71424, 71450); (71472, 71483); (71488, 71494); (71680, 71723);
   (71840, 71922); (71935, 71942); (71945, 71945); (71948, 71955);
   (71957, 71958); (71960, 71983); (71999, 71999); (72001, 72001);
   (72016, 72025); (72096, 72103); (72106, 72144); (72161, 72161);
   (72163, 72163); (72192, 72192); (72203, 72242); (72250, 72250);
   (72272, 72272); (72284, 72329); (72349, 72349); (72368, 72440);
   (72704, 72712); (72714, 72750); (72768, 72768); (72784, 72812);
   (72818, 72847); (72960, 72966); (72968, 72969); (72971, 73008);
   (73030, 73030); (73040, 73049); (73056, 73061); (73063, 73064);
   (73066, 73097); (73112, 73112); (73120, 73129); (73440, 73458);
   (73648, 73648); (73664, 73684); (73728, 74649); (74752, 74862);
   (74880, 75075); (77712, 77808); (77824, 78894); (82944, 83526);
   (92160, 92728); (92736, 92766); (92768, 92777); (92784, 92862);
   (92864, 92873); (92880, 92909); (92928, 92975); (92992, 92995);
   (93008, 93017); (93019, 93025); (93027, 93047); (93053, 93071);
   (93760, 93846); (93952, 94026); (94032, 94032); (94099, 94111);
   (94176, 94177); (94179, 94179); (94208, 100343); (100352, 101589);
   (101632, 101640); (110576, 110579); (110581, 110587); (110589, 110590);
   (110592, 110882); (110928, 110930); (110948, 110951); (110960, 111355);
   (113664, 113770); (113776, 113788); (113792, 113800); (113808, 113817);
   (119520, 119539); (119648, 119672); (119808, 119892); (119894, 119964);
   (119966, 119967); (119970, 119970); (119973, 119974); (119977, 119980);
   (119982, 119993); (119995, 119995); (119997, 120003); (120005, 120069);
   (120071, 120074); (120077, 120084); (120086, 120092); (120094, 120121);
   (120123, 120126); (120128, 120132); (120134, 120134); (120138, 120144);
   (120146, 120485); (120488, 120512); (120514, 120538); (120540, 120570);
   (120572, 120596); (120598, 120628); (120630, 120654); (120656, 120686);
   (120688, 120712); (120714, 120744); (120746, 120770); (120772, 120779);
   (120782, 120831); (122624, 122654); (123136, 123180); (123191, 123197);
   (123200, 123209); (123214, 123214); (123536, 123565); (123584, 123627);
   (123632, 123641); (124896, 124902); (124904, 124907); (124909, 124910);
   (124912, 124926); (124928, 125124); (125127, 125135); (125184, 125251);
   (125259, 125259); (125264, 125273); (126065, 126123); (126125, 126127);
   (126129, 126132); (126209, 126253); (126255, 126269); (126464, 126467);
   (126469, 126495); (126497, 126498); (126500, 126500); (126503, 126503);
   (126505, 126514); (126516, 126519); (126521, 126521); (126523, 126523);
   (126530, 126530); (126535, 126535); (126537, 126537); (126539, 126539);
   (126541, 126543); (126545, 126546); (126548, 126548); (126551, 126551);
   (126553, 126553); (126555, 126555); (126557, 126557); (126559, 126559);
   (126561, 126562); (126564, 126564); (126567, 126570); (126572, 126578);
   (126580, 126583); (126585, 126588); (126590, 126590); (126592, 126601);
   (126603, 126619); (126625, 126627); (126629, 126633); (126635, 126651);
   (127232, 127244); (130032, 130041); (131072, 173791); (173824, 177976);
   (177984, 178205); (178208, 183969); (183984, 191456); (194560, 195101);
   (196608, 201546)
  ]%N.

#[export] Instance unicode14 : UnicodeData := fun c =>
  existsb (fun '(lo, hi) => (lo <=? c) && (c <=? hi))%N alnum_ranges.

End Unicode14.
(** ** The console: prompts, the menu and the loop of [main] *)

Definition MENU : string :=
  nl +:+ "===== 📺 YouTube to Telegram Bot =====" +:+ nl +:+ nl +:+ "1️⃣ Single Video" +:+ nl +:+ "2️⃣ Playlist" +:+ nl +:+ "3️⃣ Channel (all videos)" +:+ nl +:+ "0️⃣ Exit" +:+ nl.

Definition CHOICE_PROMPT : string := "Enter choice (0-3): ".
Definition MSG_INVALID_CHOICE : string := "❌ Invalid choice. Please enter 0, 1, 2 or 3.".
Definition MSG_BYE : string := "Exiting... Bye!".
Definition MSG_DONE : string := "🎉 Done! All videos sent successfully." +:+ nl.

(** [str.isspace], on code points. *)
Definition is_space (c : N) : bool :=
  ((9 <=? c) && (c <=? 13) || (28 <=? c) && (c <=? 32)
   || (c =? 133) || (c =? 160) || (c =? 5760)
   || (8192 <=? c) && (c <=? 8202)
   || (c =? 8232) || (c =? 8233) || (c =? 8239) || (c =? 8287) || (c =? 12288))%N.

(** The character is white space. *)
Definition space_char (ch : string) : bool := is_space (codepoint ch).

Fixpoint lstrip_chars (l : list string) : list string :=
  match l with
  | [] => []
  | ch :: l' => if space_char ch then lstrip_chars l' else l
  end.

Fixpoint rstrip_chars (l : list string) : list string :=
  match l with
  | [] => []
  | ch :: l' =>
      match rstrip_chars l' with
      | [] => if space_char ch then [] else [ch]
      | r => ch :: r
      end
  end.

(** [s.strip()]: the white space characters are taken away at both
    ends. *)
Definition strip (s : string) : string :=
  join (rstrip_chars (lstrip_chars (chars s))).

(** What reaches the terminal: the events of the program, and the
    prompts that [input] writes. *)
Inductive console_event : Type :=
| Out (ev : event)
| Prompt (text : string).

(** A session: the world of the services, the lines the user still has
    to type (the end of the list is the end of the input) and what the
    terminal has shown so far. *)
Record session (W : Type) : Type := {
  world : W;
  stdin : list string;
  console : list console_event
}.
Arguments world {W} s.
Arguments stdin {W} s.
Arguments console {W} s.

(** How a run of the program ends: [sys.exit(code)], or an exception
    that nothing catches. *)
Inductive ending : Type :=
| Exit (code : Z)
| Uncaught (e : exn).

(** [print(line)] in a session. *)
Definition say {W} (line : string) (s : session W) : session W :=
  {| world := world s; stdin := stdin s;
     console := console s ++ [Out (EPrint line)] |}.

(** [input(prompt)]: the prompt is written, then a line is read;
    [EOFError] at the end of the input. *)
Definition input {W} (prompt : string) (s : session W) : outcome string * session W :=
  match stdin s with
  | [] =>
      (Raise (OtherException "EOFError"),
       {| world := world s; stdin := []; console := console s ++ [Prompt prompt] |})
  | line :: rest =>
      (Ret line,
       {| world := world s; stdin := rest; console := console s ++ [Prompt prompt] |})
  end.

(** [choice in {'0', '1', '2', '3'}]. *)
Definition is_choice (choice : string) : bool :=
  String.eqb choice "0" || String.eqb choice "1"
  || String.eqb choice "2" || String.eqb choice "3".

(** The loop of [input_choice], by recursion on the lines left to read:
    each turn is one [input], and either the return or the complaint. *)
Fixpoint input_choice_from {W} (lines : list string) (w : W) (log : list console_event)
  : outcome string * session W :=
  match lines with
  | [] =>
      (Raise (OtherException "EOFError"),
       {| world := w; stdin := []; console := log ++ [Prompt CHOICE_PROMPT] |})
  | line :: rest =>
      let choice := strip line in
      if is_choice choice
      then (Ret choice,
            {| world := w; stdin := rest; console := log ++ [Prompt CHOICE_PROMPT] |})
      else input_choice_from rest w
             (log ++ [Prompt CHOICE_PROMPT; Out (EPrint MSG_INVALID_CHOICE)])
  end.

Definition input_choice {W} (s : session W) : outcome string * session W :=
  input_choice_from (stdin s) (world s) (console s).

Definition input_link {W} (prompt : string) (s : session W) : outcome string * session W :=
  match input prompt s with
  | (Ret line, s') => (Ret (strip line), s')
  | (Raise e, s') => (Raise e, s')
  end.

(** [prompt_map[choice]], [None] for [KeyError]. *)
Definition prompt_map (choice : string) : option string :=
  if String.eqb choice "1" then Some "Enter YouTube video URL: "
  else if String.eqb choice "2" then Some "Enter YouTube playlist URL: "
  else if String.eqb choice "3" then Some "Enter YouTube channel URL: "
  else None.

(** A computation of the program run inside a session: its events go to
    the terminal. *)
Definition run {W A} (m : M W A) (s : session W) : outcome A * session W :=
  let '(r, (w', evs)) := m (world s, []) in
  (r, {| world := w'; stdin := stdin s; console := console s ++ map Out evs |}).

Section MainLoop.
Context {W : Type} `{!Services W} {UD : UnicodeData}.

(** One turn of [while True] in [main]: [Some] ending when the program
    stops in this turn, [None] when the loop goes round again.  [if
    error] is the truth of the optional message; with no message the
    loop over [videos] raises [TypeError] when [videos] is [None]. *)
Definition main_turn (s : session W) : option ending * session W :=
  match input_choice (say MENU s) with
  | (Raise e, s1) => (Some (Uncaught e), s1)
  | (Ret choice, s1) =>
      if String.eqb choice "0" then (Some (Exit 0), say MSG_BYE s1)
      else
        match prompt_map choice with
        | None => (Some (Uncaught (OtherException "KeyError")), s1)
        | Some prompt =>
            match input_link prompt s1 with
            | (Raise e, s2) => (Some (Uncaught e), s2)
            | (Ret link, s2) =>
                if negb (validate_link link choice) then (None, say MSG_INVALID_LINK s2)
                else
                  match run (fetch_videos_info link choice) s2 with
                  | (Raise e, s3) => (Some (Uncaught e), s3)
                  | (Ret (videos, error), s3) =>
                      if truthy (from_option PyStr PyNone error)
                      then (None, say (default "" error) s3)
                      else
                        match videos with
                        | None => (Some (Uncaught (OtherException "TypeError")), s3)
                        | Some vs =>
                            match run (send_all vs) s3 with
                            | (Raise e, s4) => (Some (Uncaught e), s4)
                            | (Ret _, s4) => (None, say MSG_DONE s4)
                            end
                        end
                  end
            end
        end
  end.

(** [main]: the turns one after the other; [None] when [fuel] turns did
    not reach the end of the run. *)
Fixpoint main_loop (fuel : nat) (s : session W) : option (ending * session W) :=
  match fuel with
  | O => None
  | S fuel' =>
      match main_turn s with
      | (Some e, s') => Some (e, s')
      | (None, s') => main_loop fuel' s'
      end
  end.

(** Every turn reads a line, so one turn more than there are lines is
    enough. *)
Definition main (s : session W) : option (ending * session W) :=
  main_loop (S (length (stdin s))) s.

End MainLoop.
(** ** The shapes of the links that validate *)

Definition link_schemes : list string := [""; "http://"; "https://"].

Definition link_hosts (mode : string) : list string :=
  if String.eqb mode "1" then ["youtube.com/watch?v="; "youtu.be/"]
  else if String.eqb mode "2" then ["youtube.com/playlist?list="]
  else if String.eqb mode "3"
       then ["youtube.com/channel/"; "youtube.com/c/"; "youtube.com/user/"]
  else [].

(** The fixed beginnings of a link of the given mode: an optional
    scheme, an optional [www.] and one of the hosts and paths. *)
Definition link_heads (mode : string) : list string :=
  flat_map (fun scheme =>
    flat_map (fun www =>
      map (fun host => scheme +:+ www +:+ host) (link_hosts mode))
      [""; "www."])
    link_schemes.

(** The heads of the three modes together. *)
Definition all_link_heads : list string :=
  link_heads "1" ++ link_heads "2" ++ link_heads "3".

(** The bytes of a string as numbers; for an ASCII string, its code
    points. *)
Definition codes (s : string) : list N := map N_of_ascii (list_ascii_of_string s).

(** Code points [p] begin the code points [l]. *)
Fixpoint starts_with (p l : list N) : bool :=
  match p, l with
  | [], _ => true
  | _ :: _, [] => false
  | a :: p', b :: l' => N.eqb a b && starts_with p' l'
  end.

(** ** Notions on lines and menus *)

(** All the characters are white space. *)
Definition all_space (l : list string) : bool := forallb space_char l.

(** The characters neither begin nor end with white space. *)
Definition trimmed (l : list string) : Prop :=
  (forall ch, head l = Some ch -> space_char ch = false)
  /\ (forall ch, last l = Some ch -> space_char ch = false).

(** What the terminal shows while [input_choice] turns down the given
    lines. *)
Definition complaints (rejected : list string) : list console_event :=
  flat_map (fun _ => [Prompt CHOICE_PROMPT; Out (EPrint MSG_INVALID_CHOICE)]) rejected.

(** ** Notions on what a run does *)

(** The event is a call to one of the services. *)
Definition is_call (ev : event) : bool :=
  match ev with
  | EPrint _ | ESleep _ => false
  | EExtract _ _ _ | ESendPhoto _ _ _ _ | ESendMessage _ _ _ => true
  end.

(** The terminal output holds no call to a service, and no call to the
    bot. *)
Definition no_calls (log : list console_event) : Prop :=
  Forall (fun ce => forall ev, ce = Out ev -> is_call ev = false) log.

Definition no_sends (log : list console_event) : Prop :=
  Forall (fun ce => forall ev, ce = Out ev -> is_send ev = false) log.

(** The two shapes of what [fetch_videos_info] returns. *)
Definition fetch_result_ok (r : option (list info_dict) * option string) : Prop :=
  (exists vs, vs <> [] /\ r = (Some vs, None))
  \/ r = (None, Some MSG_INVALID_LINK)
  \/ r = (None, Some MSG_NO_VIDEOS).

(** The record is the answer of an extraction call among the events. *)
Definition fetched_in (evs : list event) (v : info_dict) : Prop :=
  exists opts url, In (EExtract opts url (Ret (Some v))) evs.

Section Turns.
Context {W : Type} `{!Services W} {UD : UnicodeData}.

(** What a turn of the loop can be, with what it read and showed:
    either the input ended, or the user left, or the link was turned
    down, or the fetch raised, or it reported a failure, or the records
    were sent. *)
Inductive turn_kind (s : session W) : option ending -> session W -> Prop :=
| turn_no_choice s1 :
    input_choice (say MENU s) = (Raise (OtherException "EOFError"), s1) ->
    turn_kind s (Some (Uncaught (OtherException "EOFError"))) s1
| turn_exit s1 :
    input_choice (say MENU s) = (Ret "0", s1) ->
    turn_kind s (Some (Exit 0)) (say MSG_BYE s1)
| turn_no_link choice prompt s1 s2 :
    input_choice (say MENU s) = (Ret choice, s1) ->
    choice = "1" \/ choice = "2" \/ choice = "3" ->
    prompt_map choice = Some prompt ->
    input_link prompt s1 = (Raise (OtherException "EOFError"), s2) ->
    turn_kind s (Some (Uncaught (OtherException "EOFError"))) s2
| turn_invalid_link choice prompt link s1 s2 :
    input_choice (say MENU s) = (Ret choice, s1) ->
    choice = "1" \/ choice = "2" \/ choice = "3" ->
    prompt_map choice = Some prompt ->
    input_link prompt s1 = (Ret link, s2) ->
    validate_link link choice = false ->
    turn_kind s None (say MSG_INVALID_LINK s2)
| turn_fetch_raised choice prompt link s1 s2 s3 e :
    input_choice (say MENU s) = (Ret choice, s1) ->
    choice = "1" \/ choice = "2" \/ choice = "3" ->
    prompt_map choice = Some prompt ->
    input_link prompt s1 = (Ret link, s2) ->
    validate_link link choice = true ->
    run (fetch_videos_info link choice) s2 = (Raise e, s3) ->
    turn_kind s (Some (Uncaught e)) s3
| turn_fetch_failed choice prompt link s1 s2 s3 message :
    input_choice (say MENU s) = (Ret choice, s1) ->
    choice = "1" \/ choice = "2" \/ choice = "3" ->
    prompt_map choice = Some prompt ->
    input_link prompt s1 = (Ret link, s2) ->
    validate_link link choice = true ->
    run (fetch_videos_info link choice) s2 = (Ret (None, Some message), s3) ->
    message = MSG_INVALID_LINK \/ message = MSG_NO_VIDEOS ->
    turn_kind s None (say message s3)
| turn_sent choice prompt link s1 s2 s3 s4 vs r :
    input_choice (say MENU s) = (Ret choice, s1) ->
    choice = "1" \/ choice = "2" \/ choice = "3" ->
    prompt_map choice = Some prompt ->
    input_link prompt s1 = (Ret link, s2) ->
    validate_link link choice = true ->
    run (fetch_videos_info link choice) s2 = (Ret (Some vs, None), s3) ->
    vs <> [] ->
    run (send_all vs) s3 = (r, s4) ->
    turn_kind s
      (match r with Ret _ => None | Raise e => Some (Uncaught e) end)
      (match r with Ret _ => say MSG_DONE s4 | Raise _ => s4 end).

End Turns.


Section SendProvenance.
Context {W : Type} `{!Services W}.

(** Every call to the bot on the terminal is the send of a record that
    an extraction call shown before it returned. *)
Definition sends_follow_fetch (log : list console_event) : Prop :=
  forall before ev after,
    log = before ++ Out ev :: after ->
    is_send ev = true ->
    exists v caption reply opts url,
      In (Out (EExtract opts url (Ret (Some v)))) before
      /\ video_caption v = Ret caption
      /\ ev = send_event v caption reply.

End SendProvenance.

(** ** Sample sessions *)
Module Sessions.
Import Script Samples Unicode14.

(** The user asks for a single video, gives its link and leaves; the
    service has one record to answer and the bot refuses the first
    send. *)
Definition one_video : session script :=
  {| world := {| extract_script := [Ret (Some rec_demo)]; send_script := [false] |};
     stdin := ["1"; " https://youtu.be/abc123 "; "0"];
     console := [] |}.

(** The user mistypes, gives something that is no link, and leaves. *)
Definition no_link : session script :=
  {| world := one_entry_listing;
     stdin := ["9"; "2"; "not a link"; " 0 "; "1"];
     console := [] |}.

(** The user mistypes and leaves, with a line left unread. *)
Definition leaving : session script :=
  {| world := nothing_scripted; stdin := ["x"; " 0 "; "1"]; console := [] |}.

(** The user types the choice after a no-break space (U+00A0) and the
    link between a no-break space, a space and an em space (U+2003),
    and leaves. *)
Definition padded_video : session script :=
  {| world := {| extract_script := [Ret (Some rec_demo)]; send_script := [] |};
     stdin := [" 1"; "  https://youtu.be/abc123 "; "0"];
     console := [] |}.

(** The user asks for a playlist whose listing holds a [None]. *)
Definition playlist_with_none : session script :=
  {| world := none_entry_listing;
     stdin := ["2"; playlist_url; "0"];
     console := [] |}.

(** A record whose duration is a string. *)
Definition rec_bad_duration : info_dict :=
  record_of [("title", PyStr "Demo"); ("duration", PyStr "2:05");
             ("id", PyStr "abc123")].

End Sessions.
(** ** Facts on the matcher: it decides membership of a prefix *)


Lemma append_cons (c : ascii) (s t : string) :
  String c s +:+ t = String c (s +:+ t).
Proof. reflexivity. Qed.

Lemma append_nil_l (t : string) : "" +:+ t = t.
Proof. reflexivity. Qed.

Lemma lang_nullable r s : lang r s -> s = [] -> nullable r = true.
Proof.
  induction 1 as [ | p c Hp | r1 r2 s1 s2 H1 IH1 H2 IH2 | r1 r2 s H IH
                 | r1 r2 s H IH | r | r s1 s2 H1 IH1 H2 IH2 ];
    intros Heq; simpl; auto.
  - discriminate.
  - apply app_eq_nil in Heq as [-> ->]. rewrite IH1, IH2; auto.
  - rewrite IH; auto.
  - rewrite IH; auto using orb_true_r.
Qed.

Lemma nullable_lang r : nullable r = true -> lang r [].
Proof.
  induction r as [ | | p | r1 IH1 r2 IH2 | r1 IH1 r2 IH2 | r IH ]; simpl; intros H.
  - discriminate.
  - constructor.
  - discriminate.
  - apply andb_true_iff in H as [H1 H2].
    change (@nil N) with (@nil N ++ []). constructor; auto.
  - apply orb_true_iff in H as [H | H]; [apply lang_alt_l | apply lang_alt_r]; auto.
  - constructor.
Qed.

Lemma deriv_sound c r : forall s, lang (deriv c r) s -> lang r (c :: s).
Proof.
  induction r as [ | | p | r1 IH1 r2 IH2 | r1 IH1 r2 IH2 | r IH ]; simpl; intros s H.
  - inversion H.
  - inversion H.
  - destruct (p c) eqn:Hp; inversion H; subst. now constructor.
  - destruct (nullable r1) eqn:Hn.
    + inversion H as [ | | | ? ? ? H' | ? ? ? H' | | ]; subst.
      * inversion H' as [ | | ? ? s1 s2 Ha Hb | | | | ]; subst.
        change (c :: (s1 ++ s2)) with ((c :: s1) ++ s2).
        constructor; auto.
      * change (c :: s) with ([] ++ c :: s).
        constructor; auto using nullable_lang.
    + inversion H as [ | | ? ? s1 s2 Ha Hb | | | | ]; subst.
      change (c :: (s1 ++ s2)) with ((c :: s1) ++ s2).
      constructor; auto.
  - inversion H; subst; [apply lang_alt_l | apply lang_alt_r]; auto.
  - inversion H as [ | | ? ? s1 s2 Ha Hb | | | | ]; subst.
    change (c :: (s1 ++ s2)) with ((c :: s1) ++ s2).
    constructor; auto.
Qed.

Lemma deriv_complete c r s0 :
  lang r s0 -> forall s, s0 = c :: s -> lang (deriv c r) s.
Proof.
  induction 1 as [ | p c' Hp | r1 r2 s1 s2 H1 IH1 H2 IH2 | r1 r2 s' H IH
                 | r1 r2 s' H IH | r | r s1 s2 H1 IH1 H2 IH2 ];
    intros s Heq; simpl.
  - discriminate.
  - injection Heq as -> <-. rewrite Hp. constructor.
  - destruct s1 as [ | a s1'].
    + simpl in Heq. rewrite (lang_nullable _ _ H1 eq_refl).
      apply lang_alt_r; auto.
    + simpl in Heq. injection Heq as -> <-.
      assert (Hd : lang (Seq (deriv c r1) r2) (s1' ++ s2))
        by (constructor; auto).
      destruct (nullable r1); [apply lang_alt_l |]; exact Hd.
  - apply lang_alt_l; auto.
  - apply lang_alt_r; auto.
  - discriminate.
  - destruct s1 as [ | a s1'].
    + simpl in Heq. apply IH2 in Heq. exact Heq.
    + simpl in Heq. injection Heq as -> <-.
      constructor; auto.
Qed.

Lemma re_match_spec : forall s r, re_match r s = true <-> has_prefix_in r s.
Proof.
  induction s as [ | c s IH]; intros r; simpl.
  - rewrite orb_false_r. split.
    + intros H. exists [], []. split; auto using nullable_lang.
    + intros (p & t & Heq & Hp). symmetry in Heq.
      apply app_eq_nil in Heq as [-> _]. eapply lang_nullable; eauto.
  - rewrite orb_true_iff, IH. split.
    + intros [H | (p & t & Heq & Hp)].
      * exists [], (c :: s). split; auto using nullable_lang.
      * exists (c :: p), t. split; [simpl; congruence | now apply deriv_sound].
    + intros (p & t & Heq & Hp). destruct p as [ | a p].
      * left. eapply lang_nullable; eauto.
      * right. simpl in Heq. injection Heq as -> ->.
        exists p, t. split; auto. eapply deriv_complete; eauto.
Qed.

Lemma has_prefix_in_trailing r s t :
  has_prefix_in r s -> has_prefix_in r (s ++ t).
Proof.
  intros (p & u & -> & Hp). exists p, (u ++ t). split; auto.
  now rewrite app_assoc.
Qed.



(** ** The link classifier *)

Section Classifier.
Context {UD : UnicodeData}.

(** C7. [validate_link] holds exactly when the mode is one of the three
    link modes and some prefix of the link (of its code points) is a
    word of the pattern of that mode; hence a link that validates still
    validates with any characters appended to it, and no link validates
    under another mode. *)
Theorem validate_link_prefix_match (link mode : string) :
  (validate_link link mode = true <->
     exists r, link_pattern mode = Some r /\ has_prefix_in r (decode link))
  /\ (validate_link link mode = true ->
      forall link',
        (exists trailing, decode link' = decode link ++ trailing) ->
        validate_link link' mode = true)
  /\ (mode <> "1" -> mode <> "2" -> mode <> "3" ->
      validate_link link mode = false).
Proof.
  assert (Hchar : forall l,
    validate_link l mode = true <->
    exists r, link_pattern mode = Some r /\ has_prefix_in r (decode l)).
  { intros l. unfold validate_link, link_pattern.
    destruct (String.eqb mode "1");
      [| destruct (String.eqb mode "2"); [| destruct (String.eqb mode "3")]].
    1-3: rewrite re_match_spec; split;
         [ intros H; eexists; split; [reflexivity | exact H]
         | intros (r & Hr & H); injection Hr as <-; exact H ].
    split; [discriminate | intros (r & Hr & _); discriminate]. }
  split; [apply Hchar |]. split.
  - intros H link' (trailing & Heq). apply Hchar. apply Hchar in H as (r & Hr & Hp).
    exists r. split; auto. rewrite Heq. auto using has_prefix_in_trailing.
  - intros H1 H2 H3. unfold validate_link.
    apply String.eqb_neq in H1, H2, H3. now rewrite H1, H2, H3.
Qed.

End Classifier.

Lemma validate_link_prefix_match_witness :
  validate_link (UD := Unicode14.unicode14)
    "https://www.youtube.com/watch?v=dQw4w9WgXcQ and more" "1" = true
  /\ validate_link (UD := Unicode14.unicode14) "https://youtu.be/é?t=10" "1" = true
  /\ validate_link (UD := Unicode14.unicode14)
       "https://youtu.be/dQw4w9WgXcQ" "7" = false.
Proof.
  split; [| split].
  - apply (proj1 (proj2 (validate_link_prefix_match (UD := Unicode14.unicode14)
                           "https://www.youtube.com/watch?v=dQw4w9WgXcQ" "1"))).
    + vm_compute. reflexivity.
    + exists (decode " and more"). vm_compute. reflexivity.
  - apply (proj1 (proj2 (validate_link_prefix_match (UD := Unicode14.unicode14)
                           "https://youtu.be/é" "1"))).
    + vm_compute. reflexivity.
    + exists (decode "?t=10"). vm_compute. reflexivity.
  - apply (proj2 (proj2 (validate_link_prefix_match (UD := Unicode14.unicode14)
                           "https://youtu.be/dQw4w9WgXcQ" "7")));
      discriminate.
Defined.
(** ** The formatter *)

Lemma fmt_02d_two_digits (x : Z) : 0 <= x < 100 -> fmt_02d x = two_digits x.
Proof.
  intros Hx.
  assert (Hall : forallb (fun n => String.eqb (fmt_02d (Z.of_nat n)) (two_digits (Z.of_nat n)))
                         (seq 0 100) = true) by (vm_compute; reflexivity).
  rewrite forallb_forall in Hall.
  specialize (Hall (Z.to_nat x)).
  rewrite Z2Nat.id in Hall by lia.
  apply String.eqb_eq, Hall, in_seq. lia.
Qed.

(** C9, as the code has it.  [format_duration(None)] is ["Unknown"].
    An integer number of seconds is split into hours, minutes below
    sixty and seconds below sixty; the hours are printed, followed by
    two-digit minutes, when they are not zero, and otherwise the minutes
    are printed unpadded; the seconds always take two digits.  From zero
    seconds on, the hours are not zero exactly when they are positive,
    and the function renders as the specification says. *)
Theorem format_duration_rendering :
  format_duration PyNone = Ret "Unknown"
  /\ (forall sec : Z, exists h m s : Z,
        sec = 60 * (60 * h + m) + s /\ 0 <= m < 60 /\ 0 <= s < 60 /\
        format_duration (PyInt sec) =
          Ret (if decide (h = 0)
               then pretty m +:+ ":" +:+ two_digits s
               else pretty h +:+ ":" +:+ two_digits m +:+ ":" +:+ two_digits s))
  /\ (forall sec : Z, 0 <= sec ->
        format_duration (PyInt sec) = Ret (duration_by_positive_hours sec))
  /\ format_duration (PyInt 0) = Ret "0:00"
  /\ format_duration (PyInt 65) = Ret "1:05"
  /\ format_duration (PyInt 3725) = Ret "1:02:05".
Proof.
  assert (Hm : forall sec, 0 <= (sec / 60) mod 60 < 60)
    by (intros; apply Z.mod_pos_bound; lia).
  assert (Hs : forall sec, 0 <= sec mod 60 < 60)
    by (intros; apply Z.mod_pos_bound; lia).
  split; [reflexivity |]. split; [| split; [| repeat split; vm_compute; reflexivity]].
  - intros sec. exists (sec / 60 / 60), ((sec / 60) mod 60), (sec mod 60).
    split; [| split; [apply Hm | split; [apply Hs |]]].
    + rewrite <- (Z.div_mod (sec / 60) 60) by lia. apply Z.div_mod. lia.
    + unfold format_duration, fmt_d.
      rewrite !fmt_02d_two_digits by (specialize (Hm sec); specialize (Hs sec); lia).
      destruct (Z.eqb_spec (sec / 60 / 60) 0) as [-> | Hne]; simpl.
      * reflexivity.
      * destruct (decide (sec / 60 / 60 = 0)); [contradiction | reflexivity].
  - intros sec Hsec. unfold format_duration, duration_by_positive_hours, fmt_d.
    rewrite !fmt_02d_two_digits by (specialize (Hm sec); specialize (Hs sec); lia).
    assert (0 <= sec / 60 / 60) by (repeat apply Z.div_pos; lia).
    destruct (Z.eqb_spec (sec / 60 / 60) 0) as [Heq | Hne];
      destruct (Z.ltb_spec 0 (sec / 60 / 60)); simpl; try reflexivity; lia.
Qed.

(** C9, the counterexample.  One second before zero gives minus one
    hour, which is not positive: the rendering of the specification is
    ["59:59"], while the code tests the hours against zero and prints
    ["-1:59:59"]. *)
Lemma format_duration_negative_hours :
  format_duration (PyInt (-1)) = Ret "-1:59:59"
  /\ duration_by_positive_hours (-1) = "59:59"
  /\ format_duration (PyInt (-1)) <> Ret (duration_by_positive_hours (-1)).
Proof.
  split; [vm_compute; reflexivity |]. split; [vm_compute; reflexivity |].
  vm_compute. discriminate.
Qed.
(** ** Running the fetcher *)

Section FetcherFacts.
Context {W : Type} `{!Services W}.

Ltac run_fetch :=
  unfold fetch_videos_info, bind, try_except, print, emit, ret,
    call_extract_info, except_Exception; simpl.


(** The loop over the listing asks the service once for each entry
    that has a URL, in order, up to the first entry that is [None],
    where it raises; without such an entry it returns the answers that
    carry a record. *)
Lemma fetch_entries_run (opts : ydl_opts) (es : list (option (gmap string pyval))) :
  forall (videos : list info_dict) (w : W) (tr : list event),
    let urls := omap entry_video_url (reached es) in
    fetch_entries opts es videos (w, tr)
    = ((if lists_none es then Raise (OtherException "TypeError")
        else Ret (videos ++ omap kept_reply (ask_each opts urls w).1)),
       ((ask_each opts urls w).2,
        tr ++ zip_with (EExtract opts) urls (ask_each opts urls w).1)).
Proof.
  induction es as [ | [e | ] es IH]; intros videos w tr; simpl.
  - unfold ret. now rewrite !app_nil_r.
  - destruct (entry_video_url e) as [video_url | ]; [| apply IH].
    unfold bind, try_except, call_extract_info, except_Exception, ret; simpl.
    destruct (extract_info opts video_url w) as [reply w1].
    assert (Hstep : forall videos1,
      videos1 = videos ++ from_option (fun vi => [vi]) [] (kept_reply reply) ->
      fetch_entries opts es videos1 (w1, tr ++ [EExtract opts video_url reply])
      = ((if lists_none es then Raise (OtherException "TypeError")
          else Ret (videos ++ omap kept_reply
                      (reply :: (ask_each opts (omap entry_video_url (reached es)) w1).1))),
         ((ask_each opts (omap entry_video_url (reached es)) w1).2,
          tr ++ zip_with (EExtract opts)
                  (video_url :: omap entry_video_url (reached es))
                  (reply :: (ask_each opts (omap entry_video_url (reached es)) w1).1)))).
    { intros videos1 ->. rewrite IH. simpl. rewrite <- !app_assoc. simpl.
      destruct (kept_reply reply); reflexivity. }
    change (list_omap (gmap string pyval) string entry_video_url (reached es))
      with (omap entry_video_url (reached es)).
    destruct (ask_each opts (omap entry_video_url (reached es)) w1) as [replies w'].
    destruct reply as [[vi | ] | exc]; simpl.
    + destruct (info_truthy vi) eqn:Htruthy;
        rewrite Hstep by (simpl; rewrite Htruthy; simpl; now rewrite ?app_nil_r);
        simpl; rewrite ?Htruthy; reflexivity.
    + rewrite Hstep by (simpl; now rewrite app_nil_r). reflexivity.
    + rewrite Hstep by (simpl; now rewrite app_nil_r). reflexivity.
  - unfold lift. now rewrite app_nil_r.
Qed.

Lemma reached_dicts (ds : list (gmap string pyval)) : reached (map Some ds) = ds.
Proof. induction ds as [ | d ds IH]; simpl; congruence. Qed.

Lemma lists_none_dicts (ds : list (gmap string pyval)) : lists_none (map Some ds) = false.
Proof. induction ds as [ | d ds IH]; simpl; auto. Qed.

Lemma lists_none_In (es : list (option (gmap string pyval))) :
  lists_none es = true <-> In None es.
Proof.
  unfold lists_none. rewrite existsb_exists. split.
  - intros ([e | ] & Hin & Hx); [discriminate | exact Hin].
  - intros Hin. exists None. auto.
Qed.

(** The first call raised. *)
Lemma fetch_first_call_raises (url mode : string) (w w' : W) (tr : list event) (e : exn) :
  extract_info (make_ydl_opts mode) url w = (Raise e, w') ->
  fetch_videos_info url mode (w, tr)
  = (Ret (None, Some MSG_INVALID_LINK),
     (w', tr ++ [EPrint MSG_FETCHING; EExtract (make_ydl_opts mode) url (Raise e)])).
Proof. intros Hcall. run_fetch. rewrite Hcall. simpl. now rewrite <- app_assoc. Qed.

(** The first call returned [None]. *)
Lemma fetch_first_call_none (url mode : string) (w w' : W) (tr : list event) :
  extract_info (make_ydl_opts mode) url w = (Ret None, w') ->
  fetch_videos_info url mode (w, tr)
  = (Ret (None, Some MSG_NO_VIDEOS),
     (w', tr ++ [EPrint MSG_FETCHING; EExtract (make_ydl_opts mode) url (Ret None)])).
Proof. intros Hcall. run_fetch. rewrite Hcall. simpl. now rewrite <- app_assoc. Qed.

(** Single-video mode, the call returned a record. *)
Lemma fetch_single_record (url : string) (w w' : W) (tr : list event) (info : info_dict) :
  extract_info (make_ydl_opts "1") url w = (Ret (Some info), w') ->
  fetch_videos_info url "1" (w, tr)
  = (Ret (if has_key (fields info) "title"
          then (Some [info], None) else (None, Some MSG_NO_VIDEOS)),
     (w', tr ++ [EPrint MSG_FETCHING;
                 EExtract (make_ydl_opts "1") url (Ret (Some info))])).
Proof.
  intros Hcall. run_fetch. rewrite Hcall. simpl. rewrite <- app_assoc.
  now destruct (has_key (fields info) "title").
Qed.

(** Collection mode, the call returned a record without a listing. *)
Lemma fetch_collection_no_entries (url mode : string) (w w' : W) (tr : list event)
      (info : info_dict) :
  mode = "2" \/ mode = "3" ->
  extract_info (make_ydl_opts mode) url w = (Ret (Some info), w') ->
  entries info = None \/ entries info = Some None \/ entries info = Some (Some []) ->
  fetch_videos_info url mode (w, tr)
  = (Ret (None, Some MSG_NO_VIDEOS),
     (w', tr ++ [EPrint MSG_FETCHING;
                 EExtract (make_ydl_opts mode) url (Ret (Some info))])).
Proof.
  intros Hmode Hcall Hentries. run_fetch. rewrite Hcall. simpl. rewrite <- app_assoc.
  destruct Hmode as [-> | ->]; simpl;
    destruct Hentries as [-> | [-> | ->]]; reflexivity.
Qed.


End FetcherFacts.

Section FetcherTheorems.
Context {W : Type} `{!Services W}.

(** C5. In single-video mode the fetch makes exactly one extraction
    call, with [extract_flat] off.  If the call raises, the fetch
    returns the invalid-link message; if it returns a record without
    a [title] (or no record), the no-videos message; otherwise the
    list holding exactly that record. *)
Theorem single_video_fetch (url : string) (w : W) (tr : list event) :
  extract_flat (make_ydl_opts "1") = false
  /\ fetch_videos_info url "1" (w, tr)
     = (Ret (match (extract_info (make_ydl_opts "1") url w).1 with
             | Raise _ => (None, Some MSG_INVALID_LINK)
             | Ret None => (None, Some MSG_NO_VIDEOS)
             | Ret (Some info) =>
                 if has_key (fields info) "title"
                 then (Some [info], None)
                 else (None, Some MSG_NO_VIDEOS)
             end),
        ((extract_info (make_ydl_opts "1") url w).2,
         tr ++ [EPrint MSG_FETCHING;
                EExtract (make_ydl_opts "1") url
                         (extract_info (make_ydl_opts "1") url w).1])).
Proof.
  split; [reflexivity |].
  destruct (extract_info (make_ydl_opts "1") url w) as [reply w'] eqn:Hcall.
  destruct reply as [[info | ] | e]; simpl.
  - now apply fetch_single_record.
  - now apply fetch_first_call_none.
  - now apply fetch_first_call_raises.
Qed.

(** C10. In every mode, when the first extraction call returns no
    record without raising, the fetch returns the no-videos message,
    which is not the invalid-link message; the options always ask
    yt-dlp to ignore errors, which is how a bad link can end there. *)
Theorem fetch_no_record_is_no_videos (url mode : string) (w w' : W) (tr : list event) :
  extract_info (make_ydl_opts mode) url w = (Ret None, w') ->
  fetch_videos_info url mode (w, tr)
  = (Ret (None, Some MSG_NO_VIDEOS),
     (w', tr ++ [EPrint MSG_FETCHING; EExtract (make_ydl_opts mode) url (Ret None)]))
  /\ MSG_NO_VIDEOS <> MSG_INVALID_LINK
  /\ ignoreerrors (make_ydl_opts mode) = true.
Proof.
  intros Hcall. split; [now apply fetch_first_call_none |].
  split; [discriminate | reflexivity].
Qed.

(** C1, as the code has it.  In collection mode the listing call is
    made with [extract_flat] on.  If it raises, the fetch returns the
    invalid-link message; if it returns no record, or a record whose
    [entries] are missing, [None] or empty, the fetch returns the
    no-videos message.  No further call is made in either case. *)
Theorem collection_first_phase_failure
        (url mode : string) (w w' : W) (tr : list event)
        (reply : outcome (option info_dict)) :
  mode = "2" \/ mode = "3" ->
  extract_info (make_ydl_opts mode) url w = (reply, w') ->
  let st' := (w', tr ++ [EPrint MSG_FETCHING; EExtract (make_ydl_opts mode) url reply]) in
  extract_flat (make_ydl_opts mode) = true
  /\ ((exists e, reply = Raise e) ->
      fetch_videos_info url mode (w, tr) = (Ret (None, Some MSG_INVALID_LINK), st'))
  /\ (reply = Ret None
      \/ (exists info, reply = Ret (Some info)
            /\ (entries info = None \/ entries info = Some None
                \/ entries info = Some (Some []))) ->
      fetch_videos_info url mode (w, tr) = (Ret (None, Some MSG_NO_VIDEOS), st')).
Proof.
  intros Hmode Hcall st'. subst st'. split; [destruct Hmode as [-> | ->]; reflexivity |].
  split.
  - intros [e ->]. now apply fetch_first_call_raises.
  - intros [-> | (info & -> & Hentries)].
    + now apply fetch_first_call_none.
    + now apply fetch_collection_no_entries.
Qed.

Lemma extract_urls_of_calls (opts : ydl_opts) (urls : list string) :
  forall replies : list (outcome (option info_dict)),
    length replies = length urls ->
    omap extract_url (zip_with (EExtract opts) urls replies) = urls.
Proof.
  induction urls as [ | u urls IH]; intros [ | r replies] Hlen;
    simpl in *; try discriminate; auto.
  f_equal. apply IH. lia.
Qed.

Lemma calls_share_options (opts : ydl_opts) (urls : list string) :
  forall replies : list (outcome (option info_dict)),
    Forall (fun ev => forall o u r, ev = EExtract o u r -> o = opts)
           (zip_with (EExtract opts) urls replies).
Proof.
  induction urls as [ | u urls IH]; intros [ | r replies]; simpl; constructor; auto.
  intros o u' r' Heq. now injection Heq as <- _ _.
Qed.


End FetcherTheorems.
(** ** Running the notifier *)

Section NotifierFacts.
Context {W : Type} `{!Services W}.

(** Once the caption is built, the notifier makes exactly one call. *)
Lemma send_video_info_run (video : info_dict) (caption : string) (w : W) (tr : list event) :
  video_caption video = Ret caption ->
  let thumbnail := get (fields video) "thumbnail" in
  let answer :=
    if truthy thumbnail
    then send_photo TELEGRAM_CHAT_ID thumbnail caption w
    else send_message TELEGRAM_CHAT_ID caption w in
  send_video_info video (w, tr)
  = (send_outcome answer.1, (answer.2, tr ++ [send_event video caption answer.1])).
Proof.
  intros Hcaption. unfold send_video_info, send_event, bind, lift, try_except, ret,
    call_send_photo, call_send_message, except_TelegramError.
  rewrite Hcaption. simpl.
  destruct (truthy (get (fields video) "thumbnail")); simpl.
  - destruct (send_photo _ _ _ w) as [[[] | [ | name]] w']; reflexivity.
  - destruct (send_message _ _ w) as [[[] | [ | name]] w']; reflexivity.
Qed.

(** The sending loop, while the bot fails with [TelegramError]
    only. *)
Lemma send_all_run (videos : list info_dict) :
  (forall chat photo caption w e,
      (send_photo chat photo caption w).1 = Raise e -> e = TelegramError) ->
  (forall chat text w e,
      (send_message chat text w).1 = Raise e -> e = TelegramError) ->
  Forall (fun video => exists caption, video_caption video = Ret caption) videos ->
  forall (w : W) (tr : list event),
  exists (w' : W) (tr' : list event),
    send_all videos (w, tr) = (Ret tt, (w', tr ++ tr'))
    /\ sending_trace videos tr'.
Proof.
  intros Hphoto Hmessage Hcaptions.
  induction Hcaptions as [ | video rest [caption Hcaption] _ IH]; intros w tr.
  - exists w, []. split; [simpl; unfold ret; now rewrite app_nil_r | constructor].
  - simpl. unfold bind at 1. unfold print, emit. unfold bind at 1.
    rewrite (send_video_info_run video caption) by exact Hcaption.
    set (thumbnail := get (fields video) "thumbnail").
    set (answer := if truthy thumbnail
                   then send_photo TELEGRAM_CHAT_ID thumbnail caption w
                   else send_message TELEGRAM_CHAT_ID caption w).
    assert (Hanswer : answer.1 = Ret tt \/ answer.1 = Raise TelegramError).
    { destruct (answer.1) as [[] | e] eqn:Hreply; [now left | right].
      f_equal. subst answer. destruct (truthy thumbnail); eauto. }
    destruct Hanswer as [Hreply | Hreply]; rewrite Hreply; simpl;
      unfold bind at 1; unfold print, sleep, emit;
      match goal with |- context [send_all rest (?w1, ?tr1)] =>
        destruct (IH w1 tr1) as (w' & tr' & Hrun & Hshape) end;
      rewrite Hrun; eexists w', _; (split;
        [ rewrite <- !app_assoc; simpl; reflexivity | ]).
    + now apply sending_sent.
    + now apply sending_failed.
Qed.

(** A sending phase attempts every record once. *)
Lemma sending_trace_attempts (videos : list info_dict) (tr : list event) :
  sending_trace videos tr -> length (List.filter is_send tr) = length videos.
Proof.
  induction 1 as [ | video rest caption tr Hc _ IH | video rest caption tr Hc _ IH].
  - reflexivity.
  - unfold send_event. destruct (truthy (get (fields video) "thumbnail"));
      simpl; now rewrite IH.
  - unfold send_event. destruct (truthy (get (fields video) "thumbnail"));
      simpl; now rewrite IH.
Qed.

End NotifierFacts.

Section NotifierTheorems.
Context {W : Type} `{!Services W}.

(** C6. For a record whose caption can be built, the notifier makes
    exactly one call to the bot: a photo with the thumbnail as image
    and the caption attached when the thumbnail is true, a text
    message with the caption as text otherwise.  The thumbnail is true
    exactly when the field is there and holds a non-empty string (or a
    number other than zero).  When the call raises [TelegramError]
    the notifier returns [False]; when it returns, [True]. *)
Theorem send_video_info_paths (video : info_dict) (caption : string)
        (w : W) (tr : list event) :
  video_caption video = Ret caption ->
  let thumbnail := get (fields video) "thumbnail" in
  (truthy thumbnail = true ->
     send_video_info video (w, tr)
     = (send_outcome (send_photo TELEGRAM_CHAT_ID thumbnail caption w).1,
        ((send_photo TELEGRAM_CHAT_ID thumbnail caption w).2,
         tr ++ [ESendPhoto TELEGRAM_CHAT_ID thumbnail caption
                           (send_photo TELEGRAM_CHAT_ID thumbnail caption w).1])))
  /\ (truthy thumbnail = false ->
     send_video_info video (w, tr)
     = (send_outcome (send_message TELEGRAM_CHAT_ID caption w).1,
        ((send_message TELEGRAM_CHAT_ID caption w).2,
         tr ++ [ESendMessage TELEGRAM_CHAT_ID caption
                             (send_message TELEGRAM_CHAT_ID caption w).1])))
  /\ (truthy thumbnail = true <->
      (exists s, fields video !! "thumbnail" = Some (PyStr s) /\ s <> "")
      \/ (exists z, fields video !! "thumbnail" = Some (PyInt z) /\ z <> 0))
  /\ send_outcome (Raise TelegramError) = Ret false
  /\ send_outcome (Ret tt) = Ret true.
Proof.
  intros Hcaption thumbnail.
  pose proof (send_video_info_run video caption w tr Hcaption) as Hrun.
  simpl in Hrun. fold thumbnail in Hrun. unfold send_event in Hrun.
  fold thumbnail in Hrun.
  split; [| split; [| split; [| split; reflexivity]]].
  - intros Htrue. now rewrite Htrue in Hrun.
  - intros Hfalse. now rewrite Hfalse in Hrun.
  - subst thumbnail. unfold get.
    destruct (fields video !! "thumbnail") as [[ | s | z] | ]; simpl.
    + split; [discriminate | intros [(s & Heq & _) | (z & Heq & _)]; discriminate].
    + destruct (String.eqb_spec s "") as [-> | Hne]; simpl.
      * split; [discriminate |].
        intros [(s & Heq & Hne) | (z & Heq & _)]; [| discriminate].
        injection Heq as <-. contradiction.
      * split; [intros _; left; eauto | reflexivity].
    + destruct (Z.eqb_spec z 0) as [-> | Hne]; simpl.
      * split; [discriminate |].
        intros [(s & Heq & _) | (z & Heq & Hne)]; [discriminate |].
        injection Heq as <-. contradiction.
      * split; [intros _; right; eauto | reflexivity].
    + split; [discriminate | intros [(s & Heq & _) | (z & Heq & _)]; discriminate].
Qed.

(** C3, as the code has it.  While the bot fails with [TelegramError]
    only and the captions can be built, the sending phase runs to its
    end: for each record in order it prints the status line and makes
    one send attempt; after a successful attempt it sleeps for half a
    second (also after the last one), after a failed attempt it
    prints the warning and goes on to the next record without
    sleeping.  There are as many attempts as records. *)
Theorem sending_phase_trace (videos : list info_dict) (w : W) (tr : list event) :
  (forall chat photo caption w0 e,
      (send_photo chat photo caption w0).1 = Raise e -> e = TelegramError) ->
  (forall chat text w0 e,
      (send_message chat text w0).1 = Raise e -> e = TelegramError) ->
  Forall (fun video => exists caption, video_caption video = Ret caption) videos ->
  exists (w' : W) (tr' : list event),
    send_all videos (w, tr) = (Ret tt, (w', tr ++ tr'))
    /\ sending_trace videos tr'
    /\ length (List.filter is_send tr') = length videos.
Proof.
  intros Hphoto Hmessage Hcaptions.
  destruct (send_all_run videos Hphoto Hmessage Hcaptions w tr)
    as (w' & tr' & Hrun & Hshape).
  exists w', tr'. split; [exact Hrun |]. split; [exact Hshape |].
  now apply sending_trace_attempts.
Qed.

(** C8, as the code has it.  The link of a record is its
    [webpage_url] when that is true (there, not [None], not empty),
    else its [url] when that is true, else ["https://youtu.be/"]
    followed by its [id], a string, or by nothing when there is no
    [id]; this link is what the caption shows after the label of the
    link line.  A record with only [id = "abc123"] has the link
    ["https://youtu.be/abc123"]. *)
Theorem video_link_fallback (video : info_dict) :
  let webpage_url := get (fields video) "webpage_url" in
  let url := get (fields video) "url" in
  (truthy webpage_url = true -> video_link video = Ret webpage_url)
  /\ (truthy webpage_url = false -> truthy url = true -> video_link video = Ret url)
  /\ (truthy webpage_url = false -> truthy url = false ->
      forall i, get_default (fields video) "id" (PyStr "") = PyStr i ->
                video_link video = Ret (PyStr ("https://youtu.be/" +:+ i)))
  /\ (fields video = {[ "id" := PyStr "abc123" ]} ->
      video_link video = Ret (PyStr "https://youtu.be/abc123"))
  /\ (forall caption, video_caption video = Ret caption ->
      exists link title duration upload_date,
        video_link video = Ret link
        /\ caption = "🎬 Title: " +:+ title +:+ nl +:+
                     "🔗 Link: " +:+ py_str link +:+ nl +:+
                     "⏱ Duration: " +:+ duration +:+ nl +:+
                     "📅 Date: " +:+ upload_date).
Proof.
  intros webpage_url url. unfold video_link. fold webpage_url url.
  split; [| split; [| split; [| split]]].
  - now intros ->.
  - now intros -> ->.
  - now intros -> -> i ->.
  - intros Hfields. subst webpage_url url. rewrite Hfields. reflexivity.
  - intros caption. unfold video_caption, video_link. fold webpage_url url.
    destruct (if truthy webpage_url then _ else _) as [link | e]; [| discriminate].
    destruct (format_duration _) as [duration | e]; [| discriminate].
    intros [= <-]. eexists link, _, duration, _. split; reflexivity.
Qed.

End NotifierTheorems.
(** ** The properties on the scripted services *)

Import Script Samples Unicode14.

Lemma scripted_send_fails_with_TelegramError (w : script) (e : exn) :
  (next_send w).1 = Raise e -> e = TelegramError.
Proof.
  unfold next_send. destruct (send_script w) as [ | [ | ] rest]; simpl;
    intros Heq; [discriminate | discriminate | now injection Heq].
Qed.

Lemma single_video_fetch_example :
  (fetch_videos_info video_url "1"
     ({| extract_script := [Ret (Some rec_demo)]; send_script := [] |}, [])).1
  = Ret (Some [rec_demo], None).
Proof. vm_compute. reflexivity. Qed.

Lemma fetch_no_record_is_no_videos_witness :
  fetch_videos_info video_url "1" (nothing_scripted, [])
  = (Ret (None, Some MSG_NO_VIDEOS),
     (nothing_scripted,
      [EPrint MSG_FETCHING; EExtract (make_ydl_opts "1") video_url (Ret None)])).
Proof.
  refine (proj1 (fetch_no_record_is_no_videos
                   video_url "1" nothing_scripted nothing_scripted [] _)).
  reflexivity.
Defined.

(** C1, the counterexample.  The listing call of a playlist raises: the
    fetch returns the invalid-link message, not the no-videos one. *)
Lemma listing_call_raises_invalid_link :
  (fetch_videos_info playlist_url "2" (listing_raises, [])).1
  = Ret (None, Some MSG_INVALID_LINK)
  /\ (fetch_videos_info playlist_url "2" (listing_raises, [])).1
     <> Ret (None, Some MSG_NO_VIDEOS).
Proof. split; [vm_compute; reflexivity | vm_compute; discriminate]. Qed.

Lemma collection_first_phase_failure_witness :
  fetch_videos_info playlist_url "2" (listing_raises, [])
  = (Ret (None, Some MSG_INVALID_LINK),
     (nothing_scripted,
      [EPrint MSG_FETCHING; EExtract (make_ydl_opts "2") playlist_url download_error]))
  /\ fetch_videos_info playlist_url "3" (nothing_scripted, [])
     = (Ret (None, Some MSG_NO_VIDEOS),
        (nothing_scripted,
         [EPrint MSG_FETCHING; EExtract (make_ydl_opts "3") playlist_url (Ret None)])).
Proof.
  split.
  - refine (proj1 (proj2 (collection_first_phase_failure
                            playlist_url "2" listing_raises nothing_scripted []
                            download_error (or_introl eq_refl) _)) _).
    + reflexivity.
    + eexists. reflexivity.
  - refine (proj2 (proj2 (collection_first_phase_failure
                            playlist_url "3" nothing_scripted nothing_scripted []
                            (Ret None) (or_intror eq_refl) _)) _).
    + reflexivity.
    + left. reflexivity.
Defined.



(** C4, the failing input.  The listing of a playlist holds a [None]
    between two entries: the fetch asks for the first entry, then
    raises [TypeError] at the test ['url' in e]; the record already
    fetched is lost and the third entry is never asked for. *)
Lemma none_entry_aborts_the_fetch :
  fetch_videos_info playlist_url "2" (none_entry_listing, [])
  = (Raise (OtherException "TypeError"),
     ({| extract_script := [Ret (Some rec_clip)]; send_script := [] |},
      [EPrint MSG_FETCHING;
       EExtract (make_ydl_opts "2") playlist_url (Ret (Some listing_with_none));
       EPrint (found_line 3 "2");
       EExtract (make_ydl_opts "2") "https://youtu.be/v1" (Ret (Some rec_demo))])).
Proof. vm_compute. reflexivity. Qed.

Lemma collection_fetch_three_of_five_example :
  (fetch_videos_info playlist_url "2" (listing_then three_of_five_fail, [])).1
  = Ret (Some [rec_demo; rec_clip], None).
Proof. vm_compute. reflexivity. Qed.

Lemma collection_fetch_all_fail_example :
  (fetch_videos_info playlist_url "3"
     (listing_then {| extract_script := [download_error; download_error; Ret None;
                                         download_error; Ret None];
                      send_script := [] |}, [])).1
  = Ret (None, Some MSG_NO_VIDEOS).
Proof. vm_compute. reflexivity. Qed.

Lemma send_video_info_paths_witness :
  send_video_info rec_clip (first_send_fails, [])
  = (Ret false,
     ({| extract_script := []; send_script := [true] |},
      [ESendPhoto TELEGRAM_CHAT_ID (PyStr "https://i.ytimg.com/vi/xyz789/hq.jpg")
                  (make_caption (PyStr "Clip")
                                (PyStr "https://www.youtube.com/watch?v=xyz789")
                                "1:05" "Unknown")
                  (Raise TelegramError)]))
  /\ send_video_info rec_demo (nothing_scripted, [])
     = (Ret true,
        (nothing_scripted,
         [ESendMessage TELEGRAM_CHAT_ID
                       (make_caption (PyStr "Demo") (PyStr "https://youtu.be/abc123")
                                     "2:05" "Unknown")
                       (Ret tt)])).
Proof.
  split.
  - refine (proj1 (send_video_info_paths rec_clip _ first_send_fails [] _) _);
      reflexivity.
  - refine (proj1 (proj2 (send_video_info_paths rec_demo _ nothing_scripted [] _)) _);
      reflexivity.
Defined.

(** C3, the counterexample.  Two records, the first send fails: the
    warning is printed and the second send follows at once; the only
    sleep of the run comes after the second, successful send. *)
Lemma failed_send_is_not_followed_by_a_delay :
  let run := send_all [rec_demo; rec_only_id] (first_send_fails, []) in
  run.1 = Ret tt
  /\ run.2.2
     = [EPrint (sending_line (PyStr "Demo"));
        ESendMessage TELEGRAM_CHAT_ID
          (make_caption (PyStr "Demo") (PyStr "https://youtu.be/abc123") "2:05" "Unknown")
          (Raise TelegramError);
        EPrint MSG_SEND_FAILED;
        EPrint (sending_line (PyStr "Unknown Title"));
        ESendMessage TELEGRAM_CHAT_ID
          (make_caption (PyStr "Unknown Title") (PyStr "https://youtu.be/abc123")
                        "Unknown" "Unknown")
          (Ret tt);
        ESleep (1 # 2)]
  /\ delay_between_sends false run.2.2 = false.
Proof. repeat split; vm_compute; reflexivity. Qed.

Lemma sending_phase_trace_witness :
  exists (w' : script) (tr' : list event),
    send_all [rec_demo; rec_clip] (first_send_fails, []) = (Ret tt, (w', [] ++ tr'))
    /\ sending_trace [rec_demo; rec_clip] tr'
    /\ length (List.filter is_send tr') = 2%nat.
Proof.
  apply (sending_phase_trace [rec_demo; rec_clip] first_send_fails []).
  - intros chat photo caption w0 e. apply scripted_send_fails_with_TelegramError.
  - intros chat text w0 e. apply scripted_send_fails_with_TelegramError.
  - repeat constructor; eexists; reflexivity.
Defined.

(** C8, the counterexample.  The record has a [webpage_url], which is
    empty, and a [url]: by the rule of the specification the link would
    be the empty [webpage_url]; the code passes it over and takes the
    [url]. *)
Lemma empty_webpage_url_is_passed_over :
  fields rec_empty_webpage_url !! "webpage_url" = Some (PyStr "")
  /\ link_by_presence rec_empty_webpage_url = PyStr ""
  /\ video_link rec_empty_webpage_url = Ret (PyStr video_url)
  /\ video_link rec_empty_webpage_url <> Ret (link_by_presence rec_empty_webpage_url).
Proof.
  repeat split; try (vm_compute; reflexivity). vm_compute. discriminate.
Qed.

Lemma video_link_fallback_witness :
  video_link rec_only_id = Ret (PyStr "https://youtu.be/abc123")
  /\ video_link rec_clip = Ret (PyStr "https://www.youtube.com/watch?v=xyz789")
  /\ video_link rec_empty_webpage_url = Ret (PyStr video_url).
Proof.
  split; [| split].
  - apply (proj1 (proj2 (proj2 (proj2 (video_link_fallback (W := script) rec_only_id))))).
    vm_compute. reflexivity.
  - apply (proj1 (video_link_fallback (W := script) rec_clip)). reflexivity.
  - apply (proj1 (proj2 (video_link_fallback (W := script) rec_empty_webpage_url)));
      reflexivity.
Defined.

Lemma format_duration_rendering_witness :
  format_duration (PyInt 125) = Ret (duration_by_positive_hours 125).
Proof.
  apply (proj1 (proj2 (proj2 format_duration_rendering))). lia.
Defined.
(** ** The link classifier: which strings validate *)

Lemma codes_app (a b : string) : codes (a +:+ b) = codes a ++ codes b.
Proof.
  induction a as [ | c a IH]; [reflexivity |]. rewrite append_cons.
  unfold codes in *. simpl. now rewrite IH.
Qed.

Lemma lang_Lit (s : string) (p : list N) : lang (Lit s) p <-> p = codes s.
Proof.
  revert p. induction s as [ | c s IH]; intros p; simpl.
  - split; [intros H; now inversion H | intros ->; constructor].
  - split.
    + intros H. inversion H as [ | | ? ? p1 p2 H1 H2 | | | | ]; subst.
      apply IH in H2 as ->. inversion H1 as [ | ? c' Hc | | | | | ]; subst.
      apply N.eqb_eq in Hc as <-. reflexivity.
    + intros ->. change (codes (String c s)) with ([N_of_ascii c] ++ codes s).
      constructor; [constructor; apply N.eqb_refl | now apply IH].
Qed.

Lemma lang_Seq (r1 r2 : regex) (p : list N) :
  lang (Seq r1 r2) p <-> exists p1 p2, p = p1 ++ p2 /\ lang r1 p1 /\ lang r2 p2.
Proof.
  split.
  - intros H. inversion H; subst. eauto.
  - intros (p1 & p2 & -> & H1 & H2). now constructor.
Qed.

Lemma lang_Alt (r1 r2 : regex) (p : list N) :
  lang (Alt r1 r2) p <-> lang r1 p \/ lang r2 p.
Proof.
  split.
  - intros H. inversion H; subst; auto.
  - intros [H | H]; [now apply lang_alt_l | now apply lang_alt_r].
Qed.

Lemma lang_Opt (r : regex) (p : list N) : lang (Opt r) p <-> lang r p \/ p = [].
Proof.
  unfold Opt. rewrite lang_Alt. split; intros [H | H]; auto.
  - right. now inversion H.
  - right. subst. constructor.
Qed.

Lemma append_assoc (a b c : string) : (a +:+ b) +:+ c = a +:+ b +:+ c.
Proof.
  induction a as [ | x a IH]; [reflexivity |]. rewrite !append_cons. now rewrite IH.
Qed.

Lemma append_nil_r (a : string) : a +:+ "" = a.
Proof.
  induction a as [ | x a IH]; [reflexivity |]. rewrite append_cons. now rewrite IH.
Qed.

(** A prefix in [r+] for a character class: one character of the class
    is enough, whatever follows. *)
Lemma has_prefix_in_Seq_Plus_Class (r : regex) (f : N -> bool) (s : list N) :
  has_prefix_in (Seq r (Plus (Class f))) s
  <-> exists p c t, lang r p /\ f c = true /\ s = p ++ c :: t.
Proof.
  split.
  - intros (q & t & -> & Hq). apply lang_Seq in Hq as (p & w & -> & Hp & Hw).
    unfold Plus in Hw. apply lang_Seq in Hw as (w1 & w2 & -> & Hw1 & _).
    inversion Hw1 as [ | ? c Hc | | | | | ]; subst.
    exists p, c, (w2 ++ t). split; [exact Hp |]. split; [exact Hc |].
    rewrite <- !app_assoc. reflexivity.
  - intros (p & c & t & Hp & Hc & ->).
    exists (p ++ [c]), t. split.
    + rewrite <- app_assoc. reflexivity.
    + constructor; [exact Hp |]. unfold Plus.
      change [c] with ([c] ++ []).
      constructor; [now constructor | constructor].
Qed.

Lemma lang_SCHEME_WWW (p : list N) :
  lang SCHEME_WWW p
  <-> exists scheme www, In scheme link_schemes /\ In www [""; "www."]
                         /\ p = codes (scheme +:+ www).
Proof.
  unfold SCHEME_WWW. rewrite lang_Seq. split.
  - intros (p1 & p2 & -> & H1 & H2).
    apply lang_Opt in H1, H2. rewrite lang_Lit in H2.
    assert (Hs : exists scheme, In scheme link_schemes /\ p1 = codes scheme).
    { destruct H1 as [H1 | ->]; [| exists ""; simpl; auto].
      apply lang_Seq in H1 as (a & b & -> & Ha & Hb). apply lang_Lit in Ha as ->.
      apply lang_Seq in Hb as (b1 & b2 & -> & Hb1 & Hb2). apply lang_Lit in Hb2 as ->.
      apply lang_Opt in Hb1 as [Hb1 | ->]; [apply lang_Lit in Hb1 as -> |].
      - exists "https://". simpl. auto.
      - exists "http://". simpl. auto. }
    destruct Hs as (scheme & Hs & ->).
    assert (Hw : exists www, In www [""; "www."] /\ p2 = codes www).
    { destruct H2 as [-> | ->]; [exists "www." | exists ""]; simpl; auto. }
    destruct Hw as (www & Hw & ->).
    exists scheme, www. rewrite codes_app. auto.
  - intros (scheme & www & Hs & Hw & ->). exists (codes scheme), (codes www).
    split; [apply codes_app |]. rewrite !lang_Opt, lang_Lit. split.
    + simpl in Hs. destruct Hs as [<- | [<- | [<- | []]]]; [now right | left | left].
      * change (codes "http://") with (codes "http" ++ [] ++ codes "://").
        constructor; [now apply lang_Lit |].
        constructor; [apply lang_Opt; now right | now apply lang_Lit].
      * change (codes "https://") with (codes "http" ++ codes "s" ++ codes "://").
        constructor; [now apply lang_Lit |].
        constructor; [apply lang_Opt; left; now apply lang_Lit | now apply lang_Lit].
    + simpl in Hw. destruct Hw as [<- | [<- | []]]; auto.
Qed.

(** The words of the host part of each pattern. *)
Lemma lang_video_host (p : list N) :
  lang (Alt (Lit "youtube.com/watch?v=") (Lit "youtu.be/")) p
  <-> exists host, In host (link_hosts "1") /\ p = codes host.
Proof.
  rewrite lang_Alt, !lang_Lit.
  change (link_hosts "1") with ["youtube.com/watch?v="; "youtu.be/"].
  split.
  - intros [-> | ->]; eexists; (split; [| reflexivity]); simpl; auto.
  - intros (host & [<- | [<- | []]] & ->); auto.
Qed.

Lemma lang_playlist_host (p : list N) :
  lang (Lit "youtube.com/playlist?list=") p
  <-> exists host, In host (link_hosts "2") /\ p = codes host.
Proof.
  rewrite lang_Lit. change (link_hosts "2") with ["youtube.com/playlist?list="].
  split.
  - intros ->. eexists; (split; [| reflexivity]); simpl; auto.
  - intros (host & [<- | []] & ->); auto.
Qed.

Lemma lang_channel_host (p : list N) :
  lang (Seq (Lit "youtube.com/") (Alt (Lit "channel/") (Alt (Lit "c/") (Lit "user/")))) p
  <-> exists host, In host (link_hosts "3") /\ p = codes host.
Proof.
  rewrite lang_Seq.
  change (link_hosts "3")
    with ["youtube.com/channel/"; "youtube.com/c/"; "youtube.com/user/"].
  split.
  - intros (a & b & -> & Ha & Hb). apply lang_Lit in Ha as ->.
    rewrite !lang_Alt, !lang_Lit in Hb.
    destruct Hb as [-> | [-> | ->]]; rewrite <- codes_app;
      eexists; (split; [| reflexivity]); simpl; auto.
  - intros (host & [<- | [<- | [<- | []]]] & ->).
    + exists (codes "youtube.com/"), (codes "channel/").
      rewrite !lang_Alt, !lang_Lit. auto.
    + exists (codes "youtube.com/"), (codes "c/"). rewrite !lang_Alt, !lang_Lit. auto.
    + exists (codes "youtube.com/"), (codes "user/"). rewrite !lang_Alt, !lang_Lit. auto.
Qed.

Lemma in_link_heads (mode head : string) :
  In head (link_heads mode)
  <-> exists scheme www host,
        In scheme link_schemes /\ In www [""; "www."] /\ In host (link_hosts mode)
        /\ head = scheme +:+ www +:+ host.
Proof.
  unfold link_heads. rewrite in_flat_map. split.
  - intros (scheme & Hs & H). apply in_flat_map in H as (www & Hw & H).
    apply in_map_iff in H as (host & <- & Hh). eauto 10.
  - intros (scheme & www & host & Hs & Hw & Hh & ->).
    exists scheme. split; [exact Hs |]. apply in_flat_map.
    exists www. split; [exact Hw |]. apply in_map_iff. eauto.
Qed.

Lemma link_heads_known (mode head : string) :
  In head (link_heads mode) ->
  (mode = "1" \/ mode = "2" \/ mode = "3") /\ In head all_link_heads.
Proof.
  unfold all_link_heads. rewrite !in_app_iff.
  destruct (String.eqb_spec mode "1") as [-> | H1]; [auto |].
  destruct (String.eqb_spec mode "2") as [-> | H2]; [auto |].
  destruct (String.eqb_spec mode "3") as [-> | H3]; [auto 6 |].
  unfold link_heads, link_hosts. apply String.eqb_neq in H1, H2, H3.
  rewrite H1, H2, H3. simpl. intros [].
Qed.

(** The heads are ASCII: their code points are their bytes. *)
Lemma link_heads_ascii (mode head : string) :
  In head (link_heads mode) -> decode head = codes head.
Proof.
  intros Hin. apply link_heads_known in Hin as (_ & Hin).
  assert (Hall : forallb (fun h => bool_decide (decode h = codes h))
                          all_link_heads = true) by (vm_compute; reflexivity).
  rewrite forallb_forall in Hall. specialize (Hall _ Hin).
  now apply bool_decide_eq_true in Hall.
Qed.

Section Shapes.
Context {UD : UnicodeData}.

(** The shape of a pattern made of the common head, a host part and one
    or more characters of the class. *)
Lemma has_prefix_in_link_pattern (host : regex) (mode : string) (s : list N) :
  (forall p, lang host p <-> exists h, In h (link_hosts mode) /\ p = codes h) ->
  has_prefix_in (Seq (Seq SCHEME_WWW host) (Plus (Class is_word_or_dash))) s
  <-> exists head c t,
        In head (link_heads mode) /\ is_word_or_dash c = true
        /\ s = decode head ++ c :: t.
Proof.
  intros Hhost. rewrite has_prefix_in_Seq_Plus_Class. split.
  - intros (p & c & t & Hp & Hc & ->).
    apply lang_Seq in Hp as (p1 & h & -> & Hp1 & Hh).
    apply lang_SCHEME_WWW in Hp1 as (scheme & www & Hs & Hw & ->).
    apply Hhost in Hh as (host' & Hh & ->).
    assert (Hin : In ((scheme +:+ www) +:+ host') (link_heads mode)).
    { apply in_link_heads. exists scheme, www, host'.
      rewrite append_assoc. auto. }
    exists ((scheme +:+ www) +:+ host'), c, t.
    split; [exact Hin |]. split; [exact Hc |].
    rewrite (link_heads_ascii _ _ Hin), !codes_app. reflexivity.
  - intros (head & c & t & Hhead & Hc & ->). exists (decode head), c, t.
    split; [| split; [exact Hc | reflexivity]].
    rewrite (link_heads_ascii _ _ Hhead).
    apply in_link_heads in Hhead as (scheme & www & h & Hs & Hw & Hh & ->).
    rewrite <- append_assoc, codes_app. constructor; [| apply Hhost; eauto].
    apply lang_SCHEME_WWW. eauto.
Qed.

(** Regrouping a sequence does not change its prefixes. *)
Lemma has_prefix_in_Seq_assoc (r1 r2 r3 : regex) (s : list N) :
  has_prefix_in (Seq r1 (Seq r2 r3)) s <-> has_prefix_in (Seq (Seq r1 r2) r3) s.
Proof.
  split; intros (p & t & -> & Hp); exists p, t; (split; [reflexivity |]).
  - apply lang_Seq in Hp as (a & bc & -> & Ha & Hbc).
    apply lang_Seq in Hbc as (b & c & -> & Hb & Hc).
    rewrite app_assoc. constructor; [now constructor | exact Hc].
  - apply lang_Seq in Hp as (ab & c & -> & Hab & Hc).
    apply lang_Seq in Hab as (a & b & -> & Ha & Hb).
    rewrite <- app_assoc. constructor; [exact Ha | now constructor].
Qed.

Lemma validate_link_shape (link mode : string) :
  validate_link link mode = true
  <-> exists head c t,
        In head (link_heads mode) /\ is_word_or_dash c = true
        /\ decode link = decode head ++ c :: t.
Proof.
  unfold validate_link.
  destruct (String.eqb_spec mode "1") as [-> | H1];
    [| destruct (String.eqb_spec mode "2") as [-> | H2];
       [| destruct (String.eqb_spec mode "3") as [-> | H3]]].
  - rewrite re_match_spec. unfold YOUTUBE_VIDEO_REGEX.
    rewrite has_prefix_in_Seq_assoc.
    apply has_prefix_in_link_pattern, lang_video_host.
  - rewrite re_match_spec. unfold YOUTUBE_PLAYLIST_REGEX.
    rewrite has_prefix_in_Seq_assoc.
    apply has_prefix_in_link_pattern, lang_playlist_host.
  - rewrite re_match_spec. unfold YOUTUBE_CHANNEL_REGEX.
    rewrite has_prefix_in_Seq_assoc.
    split.
    + intros (p & t & -> & Hp). apply (has_prefix_in_link_pattern _ "3" _ lang_channel_host).
      exists p, t. split; [reflexivity |].
      apply lang_Seq in Hp as (ab & c & -> & Hab & Hc).
      apply lang_Seq in Hab as (a & b & -> & Ha & Hb).
      apply lang_Seq in Hc as (c1 & c2 & -> & Hc1 & Hc2).
      rewrite (app_assoc (a ++ b)). constructor; [| exact Hc2].
      rewrite <- app_assoc. constructor; [exact Ha | now constructor].
    + intros H. apply (has_prefix_in_link_pattern _ "3" _ lang_channel_host) in H
        as (p & t & Heq & Hp).
      exists p, t. split; [exact Heq |].
      apply lang_Seq in Hp as (ab & c2 & -> & Hab & Hc2).
      apply lang_Seq in Hab as (a & bc1 & -> & Ha & Hbc1).
      apply lang_Seq in Hbc1 as (b & c1 & -> & Hb & Hc1).
      rewrite <- !app_assoc. rewrite (app_assoc a b).
      constructor; [now constructor |]. now constructor.
  - assert (Hheads : link_heads mode = []).
    { unfold link_heads, link_hosts.
      apply String.eqb_neq in H1, H2, H3. now rewrite H1, H2, H3. }
    rewrite Hheads. split; [discriminate | intros (? & ? & ? & [] & _)].
Qed.

End Shapes.

(** ** More on the link classifier *)

Lemma starts_with_app (a x : list N) : starts_with a (a ++ x) = true.
Proof.
  induction a as [ | c a IH]; [reflexivity |]. simpl. now rewrite N.eqb_refl.
Qed.

Lemma starts_with_common (a b s : list N) :
  starts_with a s = true -> starts_with b s = true ->
  starts_with a b = true \/ starts_with b a = true.
Proof.
  revert a b. induction s as [ | e s IH]; intros a b.
  - destruct a as [ | c a]; [intros _ _; now left | discriminate].
  - destruct a as [ | c a]; [intros _ _; now left |].
    destruct b as [ | d b]; [intros _ _; now right |].
    simpl. intros Ha Hb.
    apply andb_true_iff in Ha as [Hc Ha], Hb as [Hd Hb].
    apply N.eqb_eq in Hc as ->, Hd as ->. rewrite N.eqb_refl. simpl. now apply IH.
Qed.

(** No head is the beginning of another one. *)
Lemma link_heads_apart (h1 h2 : string) :
  In h1 all_link_heads -> In h2 all_link_heads ->
  starts_with (decode h1) (decode h2) = true -> h1 = h2.
Proof.
  assert (Hall : forallb (fun a =>
                   forallb (fun b => implb (starts_with (decode a) (decode b))
                                           (String.eqb a b))
                           all_link_heads) all_link_heads = true)
    by (vm_compute; reflexivity).
  rewrite forallb_forall in Hall. intros Hin1 Hin2 Hpre.
  specialize (Hall h1 Hin1). rewrite forallb_forall in Hall.
  specialize (Hall h2 Hin2). rewrite Hpre in Hall. now apply String.eqb_eq.
Qed.

(** A head belongs to one mode only. *)
Lemma link_heads_mode (m1 m2 head : string) :
  In head (link_heads m1) -> In head (link_heads m2) -> m1 = m2.
Proof.
  assert (Hall : forallb (fun '(a, b) =>
                   forallb (fun h => negb (existsb (String.eqb h) (link_heads b)))
                           (link_heads a))
                   [("1", "2"); ("1", "3"); ("2", "1"); ("2", "3"); ("3", "1"); ("3", "2")]
                 = true) by (vm_compute; reflexivity).
  rewrite forallb_forall in Hall. intros H1 H2.
  destruct (link_heads_known _ _ H1) as (Hm1 & _).
  destruct (link_heads_known _ _ H2) as (Hm2 & _).
  assert (Hpair : m1 = m2 \/
            In (m1, m2) [("1", "2"); ("1", "3"); ("2", "1"); ("2", "3"); ("3", "1"); ("3", "2")]).
  { destruct Hm1 as [-> | [-> | ->]], Hm2 as [-> | [-> | ->]]; simpl; auto 10. }
  destruct Hpair as [-> | Hpair]; [reflexivity |].
  specialize (Hall _ Hpair). simpl in Hall. rewrite forallb_forall in Hall.
  specialize (Hall head H1). apply negb_true_iff in Hall.
  assert (Hex : existsb (String.eqb head) (link_heads m2) = true)
    by (apply existsb_exists; exists head; split; [exact H2 | apply String.eqb_refl]).
  congruence.
Qed.

(** The way the characters of a link split into a head and a rest is
    unique. *)
Lemma link_split_unique (m1 m2 h1 h2 : string) (x y : list N) :
  In h1 (link_heads m1) -> In h2 (link_heads m2) ->
  decode h1 ++ x = decode h2 ++ y -> m1 = m2 /\ h1 = h2 /\ x = y.
Proof.
  intros H1 H2 Heq.
  destruct (link_heads_known _ _ H1) as (_ & Hk1).
  destruct (link_heads_known _ _ H2) as (_ & Hk2).
  assert (Hsame : h1 = h2).
  { destruct (starts_with_common (decode h1) (decode h2) (decode h1 ++ x)) as [Hp | Hp].
    - apply starts_with_app.
    - rewrite Heq. apply starts_with_app.
    - now apply link_heads_apart.
    - symmetry. now apply link_heads_apart. }
  subst h2. split; [eapply link_heads_mode; eauto |].
  split; [reflexivity | eapply app_inv_head; eauto].
Qed.

Section ShapeTheorems.
Context {UD : UnicodeData}.

(** X1.  A link validates in a mode exactly when its characters are
    those of one of the heads of the mode (an optional [http://] or
    [https://], an optional [www.], then the host and path of the mode)
    followed by a word character of [\w] or a dash; what comes after
    that character does not matter. *)
Theorem validate_link_accepted_shapes (link mode : string) :
  validate_link link mode = true
  <-> exists head c t,
        In head (link_heads mode) /\ is_word_or_dash c = true
        /\ decode link = decode head ++ c :: t.
Proof. apply validate_link_shape. Qed.

(** X2.  No link validates in two modes: a link that validates as a
    video is turned down as a playlist and as a channel, and so on. *)
Theorem validate_link_modes_exclusive (link m1 m2 : string) :
  validate_link link m1 = true -> validate_link link m2 = true -> m1 = m2.
Proof.
  intros H1 H2.
  apply validate_link_shape in H1 as (h1 & c1 & t1 & Hin1 & _ & Heq1).
  apply validate_link_shape in H2 as (h2 & c2 & t2 & Hin2 & _ & Heq2).
  rewrite Heq1 in Heq2.
  now destruct (link_split_unique _ _ _ _ _ _ Hin1 Hin2 Heq2).
Qed.

(** X3.  After a head of the mode, validation is decided by the very
    next character: the link validates exactly when that character is
    a word character of [\w] or a dash; a head alone, with an empty
    identifier, does not validate. *)
Theorem validate_link_after_head (mode head : string) :
  In head (link_heads mode) ->
  validate_link head mode = false
  /\ forall link c t,
       decode link = decode head ++ c :: t ->
       validate_link link mode = is_word_or_dash c.
Proof.
  intros Hin. split.
  - destruct (validate_link head mode) eqn:Hv; [| reflexivity].
    apply validate_link_shape in Hv as (h & c & t & Hin' & _ & Heq).
    rewrite <- (app_nil_r (decode head)) in Heq.
    destruct (link_split_unique _ _ _ _ _ _ Hin Hin' Heq) as (_ & _ & Habs).
    discriminate.
  - intros link c t Hlink. destruct (is_word_or_dash c) eqn:Hc.
    + apply validate_link_shape. exists head, c, t. auto.
    + destruct (validate_link link mode) eqn:Hv; [| reflexivity].
      apply validate_link_shape in Hv as (h & c' & t' & Hin' & Hc' & Heq).
      rewrite Hlink in Heq.
      destruct (link_split_unique _ _ _ _ _ _ Hin Hin' Heq) as (_ & _ & [= -> _]).
      congruence.
Qed.

End ShapeTheorems.
(** ** More on the formatter *)

Lemma length_append (a b : string) :
  String.length (a +:+ b) = (String.length a + String.length b)%nat.
Proof.
  induction a as [ | c a IH]; [reflexivity |]. rewrite append_cons. simpl. now rewrite IH.
Qed.

Lemma append_same_length (a b x y : string) :
  a +:+ x = b +:+ y -> String.length x = String.length y -> a = b /\ x = y.
Proof.
  revert b. induction a as [ | c a IH]; intros [ | d b] Heq Hlen.
  - rewrite !append_nil_l in Heq. auto.
  - apply (f_equal String.length) in Heq.
    rewrite append_nil_l, length_append in Heq. simpl in Heq. lia.
  - apply (f_equal String.length) in Heq.
    rewrite append_nil_l, length_append in Heq. simpl in Heq. lia.
  - rewrite !append_cons in Heq. injection Heq as -> Heq.
    destruct (IH b Heq Hlen) as [-> ->]. auto.
Qed.

Lemma two_digits_inj (x y : Z) :
  0 <= x < 60 -> 0 <= y < 60 -> two_digits x = two_digits y -> x = y.
Proof.
  intros Hx Hy Heq.
  assert (Hall : forallb (fun a =>
                   forallb (fun b =>
                     implb (String.eqb (two_digits (Z.of_nat a)) (two_digits (Z.of_nat b)))
                           (Nat.eqb a b)) (seq 0 60)) (seq 0 60) = true)
    by (vm_compute; reflexivity).
  rewrite forallb_forall in Hall.
  assert (Hinx : In (Z.to_nat x) (seq 0 60)) by (apply in_seq; lia).
  assert (Hiny : In (Z.to_nat y) (seq 0 60)) by (apply in_seq; lia).
  specialize (Hall _ Hinx). rewrite forallb_forall in Hall.
  specialize (Hall _ Hiny). rewrite !Z2Nat.id in Hall by lia.
  rewrite Heq, String.eqb_refl in Hall. simpl in Hall.
  apply Nat.eqb_eq in Hall. lia.
Qed.

Lemma pretty_minutes_short (m : Z) :
  0 <= m < 60 -> (String.length (pretty m) <= 2)%nat.
Proof.
  intros Hm.
  assert (Hall : forallb (fun a => Nat.leb (String.length (pretty (Z.of_nat a))) 2)
                         (seq 0 60) = true) by (vm_compute; reflexivity).
  rewrite forallb_forall in Hall. specialize (Hall (Z.to_nat m)).
  rewrite Z2Nat.id in Hall by lia. apply Nat.leb_le, Hall, in_seq. lia.
Qed.

(** What [format_duration] prints for the hours, minutes and seconds of
    a number. *)
Lemma format_duration_parts (sec : Z) :
  format_duration (PyInt sec)
  = Ret (if Z.eqb (sec / 60 / 60) 0
         then pretty ((sec / 60) mod 60) +:+ ":" +:+ two_digits (sec mod 60)
         else pretty (sec / 60 / 60) +:+ ":" +:+ two_digits ((sec / 60) mod 60)
              +:+ ":" +:+ two_digits (sec mod 60)).
Proof.
  assert (Hm : 0 <= (sec / 60) mod 60 < 60) by (apply Z.mod_pos_bound; lia).
  assert (Hs : 0 <= sec mod 60 < 60) by (apply Z.mod_pos_bound; lia).
  unfold format_duration, fmt_d. rewrite !fmt_02d_two_digits by lia.
  now destruct (Z.eqb (sec / 60 / 60) 0).
Qed.

(** X15.  Two different numbers of seconds are never displayed alike:
    [format_duration] is one-to-one on the integers. *)
Theorem format_duration_injective (sec1 sec2 : Z) :
  format_duration (PyInt sec1) = format_duration (PyInt sec2) -> sec1 = sec2.
Proof.
  rewrite !format_duration_parts. intros [= Heq].
  assert (Hm1 : 0 <= (sec1 / 60) mod 60 < 60) by (apply Z.mod_pos_bound; lia).
  assert (Hs1 : 0 <= sec1 mod 60 < 60) by (apply Z.mod_pos_bound; lia).
  assert (Hm2 : 0 <= (sec2 / 60) mod 60 < 60) by (apply Z.mod_pos_bound; lia).
  assert (Hs2 : 0 <= sec2 mod 60 < 60) by (apply Z.mod_pos_bound; lia).
  assert (Hparts : sec1 / 60 / 60 = sec2 / 60 / 60
                   /\ (sec1 / 60) mod 60 = (sec2 / 60) mod 60
                   /\ sec1 mod 60 = sec2 mod 60).
  { destruct (Z.eqb_spec (sec1 / 60 / 60) 0) as [Hh1 | Hh1];
      destruct (Z.eqb_spec (sec2 / 60 / 60) 0) as [Hh2 | Hh2].
    - rewrite <- !append_assoc in Heq.
      apply append_same_length in Heq as [Hpre Hs]; [| reflexivity].
      apply append_same_length in Hpre as [Hm _]; [| reflexivity].
      apply (inj pretty) in Hm. apply two_digits_inj in Hs; [| lia | lia].
      split; [congruence | auto].
    - exfalso.
      assert (Heq' : (pretty ((sec1 / 60) mod 60) +:+ ":") +:+ two_digits (sec1 mod 60)
                     = (pretty (sec2 / 60 / 60) +:+ ":" +:+ two_digits ((sec2 / 60) mod 60)
                        +:+ ":") +:+ two_digits (sec2 mod 60))
        by (rewrite !append_assoc; exact Heq).
      apply append_same_length in Heq' as [Hpre _]; [| reflexivity].
      apply (f_equal String.length) in Hpre. rewrite !length_append in Hpre.
      pose proof (pretty_minutes_short _ Hm1). simpl in Hpre. lia.
    - exfalso.
      assert (Heq' : (pretty (sec1 / 60 / 60) +:+ ":" +:+ two_digits ((sec1 / 60) mod 60)
                        +:+ ":") +:+ two_digits (sec1 mod 60)
                     = (pretty ((sec2 / 60) mod 60) +:+ ":") +:+ two_digits (sec2 mod 60))
        by (rewrite !append_assoc; exact Heq).
      apply append_same_length in Heq' as [Hpre _]; [| reflexivity].
      apply (f_equal String.length) in Hpre. rewrite !length_append in Hpre.
      pose proof (pretty_minutes_short _ Hm2). simpl in Hpre. lia.
    - assert (Heq' : (pretty (sec1 / 60 / 60) +:+ ":") +:+ two_digits ((sec1 / 60) mod 60)
                        +:+ ":" +:+ two_digits (sec1 mod 60)
                     = (pretty (sec2 / 60 / 60) +:+ ":") +:+ two_digits ((sec2 / 60) mod 60)
                        +:+ ":" +:+ two_digits (sec2 mod 60))
        by (rewrite !append_assoc; exact Heq).
      apply append_same_length in Heq' as [Hpre Hrest]; [| reflexivity].
      apply append_same_length in Hpre as [Hh _]; [| reflexivity].
      apply (inj pretty) in Hh.
      assert (Hrest' : (two_digits ((sec1 / 60) mod 60) +:+ ":") +:+ two_digits (sec1 mod 60)
                       = (two_digits ((sec2 / 60) mod 60) +:+ ":") +:+ two_digits (sec2 mod 60))
        by (rewrite !append_assoc; exact Hrest).
      apply append_same_length in Hrest' as [Hm Hs]; [| reflexivity].
      apply append_same_length in Hm as [Hm _]; [| reflexivity].
      apply two_digits_inj in Hm, Hs; auto. }
  destruct Hparts as (Hh & Hm & Hs).
  rewrite (Z.div_mod sec1 60), (Z.div_mod sec2 60) by lia.
  rewrite (Z.div_mod (sec1 / 60) 60), (Z.div_mod (sec2 / 60) 60) by lia.
  congruence.
Qed.
(** ** Reading the menu choice and the link *)

Lemma join_cons (ch : string) (l : list string) : join (ch :: l) = ch +:+ join l.
Proof. reflexivity. Qed.

Lemma join_app (l1 l2 : list string) : join (l1 ++ l2) = join l1 +:+ join l2.
Proof.
  induction l1 as [ | ch l1 IH]; [reflexivity |].
  change (join (ch :: (l1 ++ l2)) = join (ch :: l1) +:+ join l2).
  rewrite !join_cons, IH. now rewrite append_assoc.
Qed.

(** The characters of a string are its bytes, cut into pieces. *)
Lemma join_chars_upto (n : nat) :
  forall s, (String.length s <= n)%nat -> join (chars s) = s.
Proof.
  induction n as [ | n IH]; intros s Hlen.
  - destruct s; [reflexivity | simpl in Hlen; lia].
  - destruct s as [ | b0 t0]; [reflexivity |].
    assert (Halone : join (String b0 "" :: chars t0) = String b0 t0).
    { rewrite join_cons, IH by (simpl in Hlen; lia). reflexivity. }
    simpl chars. destruct (byte b0 <? 194)%N; [exact Halone |].
    destruct t0 as [ | b1 t1]; [exact Halone |].
    destruct (negb (second_ok b0 b1)); [exact Halone |].
    destruct (byte b0 <? 224)%N.
    { rewrite join_cons, IH by (simpl in Hlen; lia). reflexivity. }
    destruct t1 as [ | b2 t2]; [exact Halone |].
    destruct (negb (is_cont b2)); [exact Halone |].
    destruct (byte b0 <? 240)%N.
    { rewrite join_cons, IH by (simpl in Hlen; lia). reflexivity. }
    destruct t2 as [ | b3 t3]; [exact Halone |].
    destruct (is_cont b3 && (byte b0 <? 245)%N); [| exact Halone].
    rewrite join_cons, IH by (simpl in Hlen; lia). reflexivity.
Qed.

Lemma join_chars (s : string) : join (chars s) = s.
Proof. now apply (join_chars_upto (String.length s)). Qed.

Lemma lstrip_chars_spaces (pad l : list string) :
  all_space pad = true -> lstrip_chars (pad ++ l) = lstrip_chars l.
Proof.
  induction pad as [ | c pad IH]; [reflexivity |]. simpl.
  intros H. apply andb_true_iff in H as [Hc Hpad].
  rewrite Hc. auto.
Qed.

Lemma lstrip_chars_all_space (pad : list string) :
  all_space pad = true -> lstrip_chars pad = [].
Proof.
  induction pad as [ | c pad IH]; [reflexivity |]. simpl.
  intros H. apply andb_true_iff in H as [Hc Hpad]. rewrite Hc. auto.
Qed.

Lemma rstrip_chars_all_space (pad : list string) :
  all_space pad = true -> rstrip_chars pad = [].
Proof.
  induction pad as [ | c pad IH]; [reflexivity |]. simpl.
  intros H. apply andb_true_iff in H as [Hc Hpad].
  now rewrite IH, Hc.
Qed.

Lemma rstrip_chars_spaces (l pad : list string) :
  all_space pad = true ->
  (forall ch, last l = Some ch -> space_char ch = false) ->
  rstrip_chars (l ++ pad) = l.
Proof.
  intros Hpad. induction l as [ | c l IH]; intros H.
  - now apply rstrip_chars_all_space.
  - simpl. destruct l as [ | c' l'].
    + simpl. rewrite (rstrip_chars_all_space pad Hpad).
      now rewrite (H c eq_refl).
    + rewrite IH by (intros d Hd; apply H; exact Hd). reflexivity.
Qed.

Lemma lstrip_chars_decompose (l : list string) :
  exists pad, all_space pad = true /\ l = pad ++ lstrip_chars l
              /\ (forall ch, head (lstrip_chars l) = Some ch -> space_char ch = false).
Proof.
  induction l as [ | c l (pad & Hpad & Heq & Hfirst)].
  - exists []. split; [reflexivity |]. split; [reflexivity | discriminate].
  - simpl. destruct (space_char c) eqn:Hc.
    + exists (c :: pad). simpl. rewrite Hc, Hpad, <- Heq.
      split; [reflexivity |]. split; [reflexivity | exact Hfirst].
    + exists []. split; [reflexivity |]. split; [reflexivity |].
      intros d [= <-]. exact Hc.
Qed.

Lemma rstrip_chars_decompose (l : list string) :
  exists pad, all_space pad = true /\ l = rstrip_chars l ++ pad
              /\ (forall ch, last (rstrip_chars l) = Some ch -> space_char ch = false).
Proof.
  induction l as [ | c l (pad & Hpad & Heq & Hlast)].
  - exists []. split; [reflexivity |]. split; [reflexivity | discriminate].
  - simpl. destruct (rstrip_chars l) as [ | c' r] eqn:Hr.
    + simpl in Heq. subst l. destruct (space_char c) eqn:Hc.
      * exists (c :: pad). simpl. rewrite Hc, Hpad.
        split; [reflexivity |]. split; [reflexivity | discriminate].
      * exists pad. split; [exact Hpad |]. split; [reflexivity |].
        intros d [= <-]. exact Hc.
    + exists pad. split; [exact Hpad |]. split.
      * change ((c :: c' :: r) ++ pad) with (c :: ((c' :: r) ++ pad)).
        now rewrite <- Heq.
      * exact Hlast.
Qed.

Lemma head_rstrip_chars (l : list string) :
  (forall ch, head l = Some ch -> space_char ch = false) ->
  forall ch, head (rstrip_chars l) = Some ch -> space_char ch = false.
Proof.
  destruct l as [ | a l]; simpl; [discriminate |]. intros H c.
  destruct (rstrip_chars l); [destruct (space_char a) eqn:Ha |]; simpl;
    try discriminate; intros [= <-]; auto.
Qed.

(** [strip] takes away the white space around a line, and nothing
    else. *)
Lemma strip_decompose (s : string) :
  exists pad1 core pad2,
    chars s = pad1 ++ core ++ pad2
    /\ all_space pad1 = true /\ all_space pad2 = true
    /\ trimmed core /\ strip s = join core.
Proof.
  destruct (lstrip_chars_decompose (chars s)) as (pad1 & Hpad1 & Heq1 & Hfirst).
  destruct (rstrip_chars_decompose (lstrip_chars (chars s)))
    as (pad2 & Hpad2 & Heq2 & Hlast).
  exists pad1, (rstrip_chars (lstrip_chars (chars s))), pad2. unfold strip, trimmed.
  split; [congruence |]. split; [exact Hpad1 |]. split; [exact Hpad2 |].
  split; [| reflexivity].
  split; [now apply head_rstrip_chars | exact Hlast].
Qed.

Lemma strip_padded (s : string) (pad1 core pad2 : list string) :
  all_space pad1 = true -> all_space pad2 = true -> trimmed core ->
  chars s = pad1 ++ core ++ pad2 ->
  strip s = join core.
Proof.
  intros Hpad1 Hpad2 [Hfirst Hlast] Heq. unfold strip. rewrite Heq. f_equal.
  rewrite lstrip_chars_spaces by exact Hpad1.
  destruct core as [ | c core].
  - simpl. rewrite lstrip_chars_all_space by exact Hpad2. reflexivity.
  - simpl lstrip_chars. rewrite (Hfirst c eq_refl).
    change (c :: core ++ pad2) with ((c :: core) ++ pad2).
    now apply rstrip_chars_spaces.
Qed.

(** The line is the stripped line between its two runs of white
    space. *)
Lemma strip_between (s : string) (pad1 core pad2 : list string) :
  chars s = pad1 ++ core ++ pad2 -> strip s = join core ->
  s = join pad1 +:+ strip s +:+ join pad2.
Proof.
  intros Heq ->. now rewrite <- !join_app, <- Heq, join_chars.
Qed.

(** One turn of the loop of [input_choice] is one [input]. *)
Lemma input_choice_unfold {W} (s : session W) :
  input_choice s
  = match input CHOICE_PROMPT s with
    | (Raise e, s') => (Raise e, s')
    | (Ret line, s') =>
        if is_choice (strip line) then (Ret (strip line), s')
        else input_choice (say MSG_INVALID_CHOICE s')
    end.
Proof.
  unfold input_choice, input. destruct s as [w [ | line rest] log]; simpl;
    [reflexivity |].
  destruct (is_choice (strip line)); [reflexivity |].
  now rewrite <- app_assoc.
Qed.

Lemma input_choice_from_spec {W} (lines : list string) :
  forall (w : W) (log : list console_event),
  exists rejected,
    Forall (fun line => is_choice (strip line) = false) rejected
    /\ ((exists line rest,
           lines = rejected ++ line :: rest
           /\ is_choice (strip line) = true
           /\ input_choice_from lines w log
              = (Ret (strip line),
                 {| world := w; stdin := rest;
                    console := log ++ complaints rejected ++ [Prompt CHOICE_PROMPT] |}))
        \/ (lines = rejected
            /\ input_choice_from lines w log
               = (Raise (OtherException "EOFError"),
                  {| world := w; stdin := [];
                     console := log ++ complaints rejected ++ [Prompt CHOICE_PROMPT] |}))).
Proof.
  induction lines as [ | line lines IH]; intros w log.
  - exists []. split; [constructor |]. right. split; reflexivity.
  - simpl. destruct (is_choice (strip line)) eqn:Hvalid.
    + exists []. split; [constructor |]. left. exists line, lines. auto.
    + destruct (IH w (log ++ [Prompt CHOICE_PROMPT; Out (EPrint MSG_INVALID_CHOICE)]))
        as (rejected & Hrej & Hcases).
      exists (line :: rejected). split; [now constructor |].
      destruct Hcases as [(l & rest & -> & Hl & Hrun) | [-> Hrun]].
      * left. exists l, rest. split; [reflexivity |]. split; [exact Hl |].
        rewrite Hrun. simpl. now rewrite <- !app_assoc.
      * right. split; [reflexivity |]. rewrite Hrun. simpl. now rewrite <- !app_assoc.
Qed.
(** ** The fetcher in general *)

Section FetcherInGeneral.
Context {W : Type} `{!Services W}.

Lemma ask_each_kept (opts : ydl_opts) (urls : list string) :
  forall (w : W) (v : info_dict),
    In v (omap kept_reply (ask_each opts urls w).1) ->
    fetched_in (zip_with (EExtract opts) urls (ask_each opts urls w).1) v
    /\ info_truthy v = true.
Proof.
  induction urls as [ | u urls IH]; intros w v; simpl; [intros [] |].
  destruct (extract_info opts u w) as [reply w1] eqn:Hcall.
  specialize (IH w1 v). destruct (ask_each opts urls w1) as [replies w'].
  simpl in *.
  assert (Hrest : In v (omap kept_reply replies) ->
                  fetched_in (EExtract opts u reply :: zip_with (EExtract opts) urls replies) v
                  /\ info_truthy v = true).
  { intros Hin. destruct (IH Hin) as ((o & u' & Hev) & Htruthy).
    split; [| exact Htruthy]. exists o, u'. now right. }
  destruct reply as [[vi | ] | e]; simpl; auto.
  destruct (info_truthy vi) eqn:Htruthy; simpl; auto.
  intros [<- | Hin]; auto. split; [| exact Htruthy].
  exists opts, u. now left.
Qed.

Lemma calls_are_not_sends (opts : ydl_opts) (urls : list string)
      (replies : list (outcome (option info_dict))) :
  Forall (fun ev => is_send ev = false) (zip_with (EExtract opts) urls replies).
Proof.
  revert replies. induction urls as [ | u urls IH]; intros [ | r replies]; simpl;
    constructor; auto.
Qed.

(** Whatever the link, the mode and the service: the events of the
    fetch are lines and extraction calls, the first call among them.
    The fetch raises exactly when, in a collection mode, the listing
    holds a [None], and then it raises [TypeError].  What it returns
    has one of the two shapes, and its records are answers to calls of
    this very fetch. *)
Lemma fetch_videos_info_cases (url mode : string) (w : W) (tr : list event) :
  exists r (w' : W) (evs : list event),
    fetch_videos_info url mode (w, tr) = (r, (w', tr ++ evs))
    /\ Forall (fun ev => is_send ev = false) evs
    /\ In (EExtract (make_ydl_opts mode) url
                    (extract_info (make_ydl_opts mode) url w).1) evs
    /\ ((exists e, r = Raise e)
        <-> mode <> "1"
            /\ exists info es,
                 (extract_info (make_ydl_opts mode) url w).1 = Ret (Some info)
                 /\ entries info = Some (Some es) /\ In None es)
    /\ (forall e, r = Raise e -> e = OtherException "TypeError")
    /\ (forall res, r = Ret res ->
        fetch_result_ok res
        /\ (forall vs v, res.1 = Some vs -> In v vs -> fetched_in evs v)
        /\ (mode = "1" -> forall vs, res.1 = Some vs ->
            exists v, vs = [v] /\ is_Some (fields v !! "title"))).
Proof.
  assert (Hquiet : forall res : option (list info_dict) * option string,
    ~ (exists e : exn, @Ret (option (list info_dict) * option string) res = Raise e))
    by (intros res [e He]; discriminate).
  unfold fetch_videos_info, bind, try_except, print, emit, ret,
    call_extract_info, except_Exception. simpl.
  destruct (extract_info (make_ydl_opts mode) url w) as [reply w1] eqn:Hcall.
  destruct reply as [[info | ] | e]; simpl.
  - destruct (String.eqb_spec mode "1") as [-> | Hmode].
    + unfold has_key. destruct (decide (is_Some (fields info !! "title"))) as [Htitle | Htitle].
      * rewrite bool_decide_eq_true_2 by exact Htitle. simpl.
        eexists _, _, _. rewrite <- app_assoc. split; [reflexivity |].
        split; [repeat constructor |]. split; [simpl; auto |].
        split; [split; [intros H0; now apply Hquiet in H0 | intros [Hne _]; now destruct Hne] |].
        split; [discriminate |]. intros res [= <-].
        split; [left; eexists; split; [| reflexivity]; discriminate |]. split.
        -- intros vs v [= <-] [<- | []]. exists (make_ydl_opts "1"), url. simpl. auto.
        -- intros _ vs [= <-]. eauto.
      * rewrite bool_decide_eq_false_2 by exact Htitle. simpl.
        eexists _, _, _. rewrite <- app_assoc. split; [reflexivity |].
        split; [repeat constructor |]. split; [simpl; auto |].
        split; [split; [intros H0; now apply Hquiet in H0 | intros [Hne _]; now destruct Hne] |].
        split; [discriminate |]. intros res [= <-].
        split; [right; right; reflexivity |]. split; discriminate.
    + destruct (entries info) as [[es | ] | ] eqn:Hentries; simpl.
      * destruct es as [ | e es].
        -- eexists _, _, _. rewrite <- app_assoc. split; [reflexivity |].
           split; [repeat constructor |]. split; [simpl; auto |].
           split; [split; [intros H0; now apply Hquiet in H0 |] |].
           { intros (_ & info' & es' & [= <-] & Hes & Hin).
             rewrite Hentries in Hes. injection Hes as <-. destruct Hin. }
           split; [discriminate |]. intros res [= <-].
           split; [right; right; reflexivity |]. split; [discriminate | contradiction].
        -- rewrite fetch_entries_run.
           set (urls := omap entry_video_url (reached (e :: es))).
           pose proof (ask_each_kept (make_ydl_opts mode) urls w1) as Hkept.
           destruct (ask_each (make_ydl_opts mode) urls w1) as [replies w'] eqn:Hask.
           cbv beta iota zeta in Hkept |- *. simpl fst in *. simpl snd in *.
           destruct (lists_none (e :: es)) eqn:Hnone.
           ++ eexists _, _, _. rewrite <- !app_assoc. split; [reflexivity |].
              split; [simpl; repeat constructor; apply calls_are_not_sends |].
              split; [simpl; auto |]. split.
              { split; [intros _ | intros _; eauto].
                split; [exact Hmode |]. exists info, (e :: es).
                split; [reflexivity |]. split; [exact Hentries |].
                now apply lists_none_In. }
              split; [now intros e0 [= <-] | discriminate].
           ++ assert (Hno : ~ In None (e :: es)).
              { intros Hin. apply lists_none_In in Hin. congruence. }
              destruct (omap kept_reply replies) as [ | v vs] eqn:Hvs.
              ** eexists _, _, _. rewrite <- !app_assoc. split; [reflexivity |].
                 split; [simpl; repeat constructor; apply calls_are_not_sends |].
                 split; [simpl; auto |]. split.
                 { split; [intros H0; now apply Hquiet in H0 |].
                   intros (_ & info' & es' & [= <-] & Hes & Hin).
                   rewrite Hentries in Hes. injection Hes as <-. contradiction. }
                 split; [discriminate |]. intros res [= <-].
                 split; [right; right; reflexivity |].
                 split; [discriminate | contradiction].
              ** eexists _, _, _. rewrite <- !app_assoc. split; [reflexivity |].
                 split; [simpl; repeat constructor; apply calls_are_not_sends |].
                 split; [simpl; auto |]. split.
                 { split; [intros H0; now apply Hquiet in H0 |].
                   intros (_ & info' & es' & [= <-] & Hes & Hin).
                   rewrite Hentries in Hes. injection Hes as <-. contradiction. }
                 split; [discriminate |]. intros res [= <-].
                 split; [left; eexists; split; [| reflexivity]; discriminate |].
                 split; [| contradiction].
                 intros vs' v' [= <-] Hin.
                 destruct (Hkept v' Hin) as ((o & u & Hev) & _).
                 exists o, u. simpl. auto.
      * eexists _, _, _. rewrite <- app_assoc. split; [reflexivity |].
        split; [repeat constructor |]. split; [simpl; auto |].
        split; [split; [intros H0; now apply Hquiet in H0 |] |].
        { intros (_ & info' & es' & [= <-] & Hes & _). congruence. }
        split; [discriminate |]. intros res [= <-].
        split; [right; right; reflexivity |]. split; [discriminate | contradiction].
      * eexists _, _, _. rewrite <- app_assoc. split; [reflexivity |].
        split; [repeat constructor |]. split; [simpl; auto |].
        split; [split; [intros H0; now apply Hquiet in H0 |] |].
        { intros (_ & info' & es' & [= <-] & Hes & _). congruence. }
        split; [discriminate |]. intros res [= <-].
        split; [right; right; reflexivity |]. split; [discriminate | contradiction].
  - eexists _, _, _. rewrite <- app_assoc. split; [reflexivity |].
    split; [repeat constructor |]. split; [simpl; auto |].
    split; [split; [intros H0; now apply Hquiet in H0 |] |].
    { intros (_ & info' & es' & Habs & _). discriminate. }
    split; [discriminate |]. intros res [= <-].
    split; [right; right; reflexivity |]. split; discriminate.
  - eexists _, _, _. rewrite <- app_assoc. split; [reflexivity |].
    split; [repeat constructor |]. split; [simpl; auto |].
    split; [split; [intros H0; now apply Hquiet in H0 |] |].
    { intros (_ & info' & es' & Habs & _). discriminate. }
    split; [discriminate |]. intros res [= <-].
    split; [right; left; reflexivity |]. split; discriminate.
Qed.

End FetcherInGeneral.
(** ** The loop of [main] *)

Lemma input_choice_ret {W} (s s1 : session W) (choice : string) :
  input_choice s = (Ret choice, s1) ->
  is_choice choice = true /\ world s1 = world s
  /\ exists rejected line,
       stdin s = rejected ++ line :: stdin s1 /\ choice = strip line
       /\ Forall (fun l => is_choice (strip l) = false) rejected
       /\ console s1 = console s ++ complaints rejected ++ [Prompt CHOICE_PROMPT].
Proof.
  unfold input_choice. intros Hrun.
  destruct (input_choice_from_spec (stdin s) (world s) (console s))
    as (rejected & Hrej & [(line & rest & Hlines & Hvalid & Heq) | [_ Heq]]);
    rewrite Heq in Hrun; [| discriminate].
  injection Hrun as <- <-. simpl. split; [exact Hvalid |]. split; [reflexivity |].
  exists rejected, line. auto.
Qed.

Lemma input_choice_raise {W} (s s1 : session W) (e : exn) :
  input_choice s = (Raise e, s1) ->
  e = OtherException "EOFError" /\ world s1 = world s /\ stdin s1 = []
  /\ Forall (fun l => is_choice (strip l) = false) (stdin s)
  /\ console s1 = console s ++ complaints (stdin s) ++ [Prompt CHOICE_PROMPT].
Proof.
  unfold input_choice. intros Hrun.
  destruct (input_choice_from_spec (stdin s) (world s) (console s))
    as (rejected & Hrej & [(line & rest & Hlines & Hvalid & Heq) | [Hlines Heq]]);
    rewrite Heq in Hrun; [discriminate |].
  injection Hrun as <- <-. simpl. rewrite Hlines. auto.
Qed.

Lemma input_link_ret {W} (prompt : string) (s s1 : session W) (link : string) :
  input_link prompt s = (Ret link, s1) ->
  world s1 = world s
  /\ (exists line, stdin s = line :: stdin s1 /\ link = strip line)
  /\ console s1 = console s ++ [Prompt prompt].
Proof.
  unfold input_link, input. destruct (stdin s) as [ | line rest]; [discriminate |].
  intros [= <- <-]. simpl. eauto.
Qed.

Lemma input_link_raise {W} (prompt : string) (s s1 : session W) (e : exn) :
  input_link prompt s = (Raise e, s1) ->
  e = OtherException "EOFError" /\ world s1 = world s /\ stdin s = [] /\ stdin s1 = []
  /\ console s1 = console s ++ [Prompt prompt].
Proof.
  unfold input_link, input. destruct (stdin s) as [ | line rest]; [| discriminate].
  intros [= <- <-]. simpl. auto.
Qed.

Lemma run_spec {W A} (m : M W A) (s s1 : session W) (r : outcome A) :
  run m s = (r, s1) ->
  stdin s1 = stdin s
  /\ exists evs, m (world s, []) = (r, (world s1, evs))
                 /\ console s1 = console s ++ map Out evs.
Proof.
  unfold run. destruct (m (world s, [])) as [r' [w' evs]].
  intros [= <- <-]. simpl. eauto.
Qed.

Lemma complaints_no_calls (rejected : list string) : no_calls (complaints rejected).
Proof.
  induction rejected as [ | l rejected IH]; simpl; [constructor |].
  constructor; [discriminate |]. constructor; [| exact IH].
  now intros ev [= <-].
Qed.

Lemma no_calls_app (l1 l2 : list console_event) :
  no_calls l1 -> no_calls l2 -> no_calls (l1 ++ l2).
Proof. unfold no_calls. intros. now apply Forall_app. Qed.

Lemma no_sends_app (l1 l2 : list console_event) :
  no_sends l1 -> no_sends l2 -> no_sends (l1 ++ l2).
Proof. unfold no_sends. intros. now apply Forall_app. Qed.

Lemma no_calls_no_sends (l : list console_event) : no_calls l -> no_sends l.
Proof.
  unfold no_calls, no_sends. induction 1 as [ | ce l Hce _ IH]; constructor; auto.
  intros ev Heq. specialize (Hce ev Heq). now destruct ev.
Qed.

Lemma no_sends_out (evs : list event) :
  Forall (fun ev => is_send ev = false) evs -> no_sends (map Out evs).
Proof.
  induction 1 as [ | ev evs Hev _ IH]; simpl; constructor; auto.
  now intros ev' [= <-].
Qed.

Lemma is_choice_cases (choice : string) :
  is_choice choice = true ->
  choice = "0" \/ choice = "1" \/ choice = "2" \/ choice = "3".
Proof.
  unfold is_choice. rewrite !orb_true_iff, !String.eqb_eq. tauto.
Qed.

Section MainFacts.
Context {W : Type} `{!Services W} {UD : UnicodeData}.

Lemma main_turn_kind (s : session W) : turn_kind s (main_turn s).1 (main_turn s).2.
Proof.
  unfold main_turn.
  destruct (input_choice (say MENU s)) as [[choice | e] s1] eqn:Hchoice.
  2: { destruct (input_choice_raise _ _ _ Hchoice) as (-> & _). now constructor. }
  destruct (input_choice_ret _ _ _ Hchoice) as (Hvalid & _).
  apply is_choice_cases in Hvalid as [-> | Hmode]; [now constructor |].
  assert (Hnot0 : String.eqb choice "0" = false)
    by (destruct Hmode as [-> | [-> | ->]]; reflexivity).
  rewrite Hnot0.
  assert (Hprompt : exists prompt, prompt_map choice = Some prompt)
    by (destruct Hmode as [-> | [-> | ->]]; eexists; reflexivity).
  destruct Hprompt as [prompt Hprompt]. rewrite Hprompt.
  destruct (input_link prompt s1) as [[link | e] s2] eqn:Hlink.
  2: { destruct (input_link_raise _ _ _ _ Hlink) as (-> & _).
       eapply turn_no_link; eauto. }
  destruct (validate_link link choice) eqn:Hlinkok; simpl.
  2: { eapply turn_invalid_link; eauto. }
  destruct (run (fetch_videos_info link choice) s2) as [r s3] eqn:Hfetch.
  destruct (run_spec _ _ _ _ Hfetch) as (_ & evs & Hrun & _).
  destruct (fetch_videos_info_cases link choice (world s2) [])
    as (r0 & w' & evs' & Hret & _ & _ & _ & _ & Hres).
  rewrite Hret in Hrun. injection Hrun as <- _ _.
  destruct r0 as [res | e]; [| eapply turn_fetch_raised; eauto].
  destruct (Hres res eq_refl) as (Hok & _).
  destruct Hok as [(vs & Hne & ->) | [-> | ->]]; simpl.
  - destruct (run (send_all vs) s3) as [r4 s4] eqn:Hsend.
    pose proof (turn_sent s choice prompt link s1 s2 s3 s4 vs r4
                  Hchoice Hmode Hprompt Hlink Hlinkok Hfetch Hne Hsend) as Hturn.
    destruct r4 as [[] | e]; exact Hturn.
  - eapply turn_fetch_failed; eauto.
  - eapply turn_fetch_failed; eauto.
Qed.

End MainFacts.

Section MainRuns.
Context {W : Type} `{!Services W} {UD : UnicodeData}.

Lemma say_fields (line : string) (s : session W) :
  world (say line s) = world s /\ stdin (say line s) = stdin s
  /\ console (say line s) = console s ++ [Out (EPrint line)].
Proof. unfold say. simpl. auto. Qed.

(** A turn that goes round has read two lines at least. *)
Lemma turn_consumes (s s' : session W) (r : option ending) :
  turn_kind s r s' ->
  exists read, stdin s = read ++ stdin s' /\ (r = None -> (2 <= length read)%nat).
Proof.
  assert (Hchoice : forall choice s1,
    input_choice (say MENU s) = (Ret choice, s1) ->
    exists read, stdin s = read ++ stdin s1 /\ (1 <= length read)%nat).
  { intros choice s1 H. apply input_choice_ret in H
      as (_ & _ & rejected & line & Hlines & _).
    exists (rejected ++ [line]). simpl in Hlines. rewrite <- app_assoc. split; [exact Hlines |].
    rewrite length_app. simpl. lia. }
  assert (Hlink : forall choice prompt link s1 s2,
    input_choice (say MENU s) = (Ret choice, s1) ->
    input_link prompt s1 = (Ret link, s2) ->
    exists read, stdin s = read ++ stdin s2 /\ (2 <= length read)%nat).
  { intros choice prompt link s1 s2 H1 H2.
    destruct (Hchoice _ _ H1) as (read & Heq & Hlen).
    apply input_link_ret in H2 as (_ & (line & Hline & _) & _).
    exists (read ++ [line]). rewrite <- app_assoc. simpl. rewrite <- Hline.
    split; [exact Heq |]. rewrite length_app. simpl. lia. }
  intros Hturn. destruct Hturn.
  - apply input_choice_raise in H as (_ & _ & Hnil & _).
    exists (stdin s). rewrite Hnil, app_nil_r. split; [reflexivity | discriminate].
  - destruct (Hchoice _ _ H) as (read & Heq & _). exists read.
    split; [exact Heq | discriminate].
  - destruct (Hchoice _ _ H) as (read & Heq & _).
    apply input_link_raise in H2 as (_ & _ & Hnil1 & Hnil2 & _).
    exists read. rewrite Hnil2, <- Hnil1. split; [exact Heq | discriminate].
  - destruct (Hlink _ _ _ _ _ H H2) as (read & Heq & Hlen). exists read. auto.
  - destruct (Hlink _ _ _ _ _ H H2) as (read & Heq & Hlen). exists read.
    apply run_spec in H4 as (Hstdin & _). rewrite Hstdin. auto.
  - destruct (Hlink _ _ _ _ _ H H2) as (read & Heq & Hlen). exists read.
    apply run_spec in H4 as (Hstdin & _). simpl. rewrite Hstdin. auto.
  - destruct (Hlink _ _ _ _ _ H H2) as (read & Heq & Hlen). exists read.
    apply run_spec in H4 as (Hstdin3 & _). apply run_spec in H6 as (Hstdin4 & _).
    destruct r as [[] | e]; simpl; rewrite ?Hstdin4, Hstdin3; auto.
Qed.

(** With enough turns allowed the loop reaches its end, and more turns
    change nothing. *)
Lemma main_loop_enough (n : nat) :
  forall (s : session W),
    (length (stdin s) < n)%nat ->
    exists e s',
      forall fuel, (length (stdin s) < fuel)%nat -> main_loop fuel s = Some (e, s').
Proof.
  induction n as [ | n IH]; intros s Hlen; [lia |].
  pose proof (main_turn_kind s) as Hturn.
  destruct (main_turn s) as [[e | ] s1] eqn:Hmt; simpl in Hturn.
  - exists e, s1. intros [ | fuel] Hfuel; [lia |]. simpl. now rewrite Hmt.
  - destruct (turn_consumes _ _ _ Hturn) as (read & Heq & Hread).
    specialize (Hread eq_refl).
    assert (Hshort : (length (stdin s1) + 2 <= length (stdin s))%nat)
      by (rewrite Heq, length_app; lia).
    destruct (IH s1) as (e & s' & Hrun); [lia |].
    exists e, s'. intros [ | fuel] Hfuel; [lia |]. simpl. rewrite Hmt.
    apply Hrun. lia.
Qed.

(** A property of sessions that every turn keeps is kept by the run. *)
Lemma main_loop_invariant (P : session W -> Prop) :
  (forall s r s', P s -> turn_kind s r s' -> P s') ->
  forall fuel s e s', P s -> main_loop fuel s = Some (e, s') -> P s'.
Proof.
  intros Hstep. induction fuel as [ | fuel IH]; intros s e s' HP; simpl; [discriminate |].
  pose proof (main_turn_kind s) as Hturn.
  destruct (main_turn s) as [[e1 | ] s1]; simpl in Hturn.
  - intros [= <- <-]. eauto.
  - intros Hrun. eapply IH; [| exact Hrun]. eauto.
Qed.

(** The last turn of a run. *)
Lemma main_loop_last_turn (fuel : nat) :
  forall (s s' : session W) (e : ending),
    main_loop fuel s = Some (e, s') ->
    exists s0, turn_kind s0 (Some e) s'.
Proof.
  induction fuel as [ | fuel IH]; intros s s' e; simpl; [discriminate |].
  pose proof (main_turn_kind s) as Hturn.
  destruct (main_turn s) as [[e1 | ] s1]; simpl in Hturn.
  - intros [= <- <-]. eauto.
  - apply IH.
Qed.

End MainRuns.

Section NotifierInGeneral.
Context {W : Type} `{!Services W}.

Lemma send_video_info_events (video : info_dict) (w : W) (tr : list event) :
  exists r (w' : W) (evs : list event),
    send_video_info video (w, tr) = (r, (w', tr ++ evs))
    /\ (evs = [] /\ w' = w /\ (exists e, r = Raise e /\ video_caption video = Raise e)
        \/ exists caption reply,
             video_caption video = Ret caption
             /\ evs = [send_event video caption reply]
             /\ r = send_outcome reply).
Proof.
  destruct (video_caption video) as [caption | e] eqn:Hcaption.
  - rewrite (send_video_info_run video caption w tr Hcaption). simpl.
    eexists _, _, _. split; [reflexivity |]. right. eauto.
  - exists (Raise e), w, []. split.
    + unfold send_video_info, bind, lift. rewrite Hcaption. now rewrite app_nil_r.
    + left. eauto.
Qed.

(** The sending loop in general: it only prints, sends and sleeps, and
    each of its sends is the send of one of the records. *)
Lemma send_all_events (videos : list info_dict) :
  forall (w : W) (tr : list event),
  exists r (w' : W) (evs : list event),
    send_all videos (w, tr) = (r, (w', tr ++ evs))
    /\ Forall (fun ev =>
                 is_extract ev = false
                 /\ (is_send ev = true ->
                     exists v caption reply,
                       In v videos /\ video_caption v = Ret caption
                       /\ ev = send_event v caption reply)) evs.
Proof.
  induction videos as [ | video rest IH]; intros w tr.
  - exists (Ret tt), w, []. split; [simpl; unfold ret; now rewrite app_nil_r | constructor].
  - simpl. unfold bind at 1. unfold print, emit. unfold bind at 1.
    destruct (send_video_info_events video w
                (tr ++ [EPrint (sending_line
                                  (get_default (fields video) "title" (PyStr "Unknown Title")))]))
      as (r & w1 & evs1 & Hrun & Hevs).
    rewrite Hrun.
    assert (Hevs1 : Forall (fun ev =>
                 is_extract ev = false
                 /\ (is_send ev = true ->
                     exists v caption reply,
                       In v (video :: rest) /\ video_caption v = Ret caption
                       /\ ev = send_event v caption reply)) evs1).
    { destruct Hevs as [(-> & _) | (caption & reply & Hc & -> & _)]; constructor;
        [| constructor]. split.
      - unfold send_event. now destruct (truthy _).
      - intros _. exists video, caption, reply. simpl. auto. }
    destruct r as [success | e].
    + assert (Hcons : forall ev evs',
        is_extract ev = false -> is_send ev = false ->
        Forall (fun ev =>
                 is_extract ev = false
                 /\ (is_send ev = true ->
                     exists v caption reply,
                       In v rest /\ video_caption v = Ret caption
                       /\ ev = send_event v caption reply)) evs' ->
        Forall (fun ev =>
                 is_extract ev = false
                 /\ (is_send ev = true ->
                     exists v caption reply,
                       In v (video :: rest) /\ video_caption v = Ret caption
                       /\ ev = send_event v caption reply))
               (EPrint (sending_line
                          (get_default (fields video) "title" (PyStr "Unknown Title")))
                :: evs1 ++ ev :: evs')).
      { intros ev evs' Hev1 Hev2 Hevs'.
        constructor; [split; [reflexivity | discriminate] |].
        apply Forall_app. split; [exact Hevs1 |].
        constructor; [split; [exact Hev1 | rewrite Hev2; discriminate] |].
        eapply Forall_impl; [exact Hevs' |]. simpl.
        intros ev' [Hx Hs]. split; [exact Hx |].
        intros Hsend. destruct (Hs Hsend) as (v & c & rp & Hin & Hrest').
        exists v, c, rp. auto. }
      destruct success; simpl; unfold bind at 1; simpl;
        match goal with |- context [send_all rest (?w1, ?tr1)] =>
          destruct (IH w1 tr1) as (r' & w' & evs' & Hrest & Hevs') end;
        rewrite Hrest; eexists r', w', _; (split;
          [ rewrite <- !app_assoc; simpl; reflexivity
          | eapply Hcons; eauto ]).
    + eexists (Raise e), w1, _. split.
      * rewrite <- !app_assoc. reflexivity.
      * constructor; [split; [reflexivity | discriminate] | exact Hevs1].
Qed.

(** When the sending loop raises, either the caption of one of the
    records could not be built, or the bot raised something else than
    [TelegramError] at a send that the events show. *)
Lemma send_all_raises (videos : list info_dict) :
  forall (w w' : W) (tr tr' : list event) (e : exn),
    send_all videos (w, tr) = (Raise e, (w', tr')) ->
    (exists v, In v videos /\ video_caption v = Raise e)
    \/ (e <> TelegramError
        /\ exists evs v caption,
             tr' = tr ++ evs /\ In (send_event v caption (Raise e)) evs).
Proof.
  induction videos as [ | video rest IH]; intros w w' tr tr' e; [discriminate |].
  simpl. unfold bind at 1. unfold print, emit. unfold bind at 1.
  destruct (send_video_info_events video w
              (tr ++ [EPrint (sending_line
                                (get_default (fields video) "title" (PyStr "Unknown Title")))]))
    as (r & w1 & evs1 & Hrun & Hevs).
  rewrite Hrun. destruct r as [success | e1].
  - assert (Hnext : forall ev,
      send_all rest (w1, ((tr ++ [EPrint (sending_line
                                (get_default (fields video) "title" (PyStr "Unknown Title")))])
                          ++ evs1) ++ [ev])
      = (Raise e, (w', tr')) ->
      (exists v, In v (video :: rest) /\ video_caption v = Raise e)
      \/ (e <> TelegramError
          /\ exists evs v caption,
               tr' = tr ++ evs /\ In (send_event v caption (Raise e)) evs)).
    { intros ev Hrest. apply IH in Hrest as [(v & Hin & Hv) | (Hne & evs & v & c & -> & Hin)].
      - left. exists v. simpl. auto.
      - right. split; [exact Hne |]. eexists _, v, c. rewrite <- !app_assoc.
        split; [reflexivity |]. simpl. right. apply in_or_app. right. now right. }
    destruct success; simpl; unfold bind at 1; simpl; apply Hnext.
  - intros [= <- <- <-].
    destruct Hevs as [(_ & _ & e0 & [= <-] & Hcaption) | (caption & reply & Hc & -> & Hr)].
    + left. exists video. simpl. auto.
    + right. destruct reply as [[] | ex]; [discriminate |].
      destruct ex; [discriminate |]. injection Hr as ->.
      split; [discriminate |]. eexists _, video, caption. rewrite <- !app_assoc.
      split; [reflexivity |]. simpl. auto.
Qed.

End NotifierInGeneral.

Section MainProperties.
Context {W : Type} `{!Services W} {UD : UnicodeData}.

Lemma no_sends_follow_fetch (l : list console_event) : no_sends l -> sends_follow_fetch l.
Proof.
  unfold no_sends. intros Hquiet before ev after -> Hsend.
  apply Forall_app in Hquiet as [_ Hquiet]. apply Forall_cons in Hquiet as [Hev _].
  rewrite (Hev ev eq_refl) in Hsend. discriminate.
Qed.

(** Sends that follow a fetch: the part without sends, then sends of
    records fetched in that part. *)
Lemma sends_after_fetch (l1 l2 : list console_event) :
  no_sends l1 ->
  Forall (fun ce => forall ev, ce = Out ev -> is_send ev = true ->
            exists v caption reply opts url,
              In (Out (EExtract opts url (Ret (Some v)))) l1
              /\ video_caption v = Ret caption
              /\ ev = send_event v caption reply) l2 ->
  sends_follow_fetch (l1 ++ l2).
Proof.
  intros Hquiet Hsends before ev after Heq Hsend.
  apply app_eq_inv in Heq as [(k & -> & Hk) | (k & -> & ->)].
  - destruct k as [ | ce k].
    + simpl in Hk. subst l2. rewrite app_nil_r in *.
      apply Forall_cons in Hsends as [Hev _].
      destruct (Hev ev eq_refl Hsend) as (v & c & rp & o & u & Hin & Hrest).
      exists v, c, rp, o, u. auto.
    + injection Hk as <- _. unfold no_sends in Hquiet.
      apply Forall_app in Hquiet as [_ Hquiet]. apply Forall_cons in Hquiet as [Hev _].
      rewrite (Hev ev eq_refl) in Hsend. discriminate.
  - apply Forall_app in Hsends as [_ Hsends]. apply Forall_cons in Hsends as [Hev _].
    destruct (Hev ev eq_refl Hsend) as (v & c & rp & o & u & Hin & Hrest).
    exists v, c, rp, o, u. split; [apply in_or_app; now left | exact Hrest].
Qed.

Lemma sends_follow_fetch_app (l1 l2 : list console_event) :
  sends_follow_fetch l1 -> sends_follow_fetch l2 -> sends_follow_fetch (l1 ++ l2).
Proof.
  intros H1 H2 before ev after Heq Hsend.
  apply app_eq_inv in Heq as [(k & -> & Hk) | (k & -> & Hk)].
  - destruct k as [ | ce k].
    + simpl in Hk. symmetry in Hk.
      destruct (H2 [] ev after Hk Hsend) as (v & c & rp & o & u & [] & _).
    + injection Hk as <- _.
      exact (H1 before ev k eq_refl Hsend).
  - destruct (H2 k ev after Hk Hsend) as (v & c & rp & o & u & Hin & Hrest).
    exists v, c, rp, o, u. split; [apply in_or_app; now right | exact Hrest].
Qed.

(** What the menu and the two prompts show. *)
Lemma choice_shown (s s1 : session W) (choice : string) :
  input_choice (say MENU s) = (Ret choice, s1) ->
  world s1 = world s
  /\ exists shown, console s1 = console s ++ shown /\ no_calls shown.
Proof.
  intros H. apply input_choice_ret in H as (_ & Hw & rejected & line & _ & _ & _ & Hlog).
  split; [exact Hw |]. simpl in Hlog. rewrite <- app_assoc in Hlog.
  eexists. split; [exact Hlog |].
  apply no_calls_app; [constructor; [now intros ev [= <-] | constructor] |].
  apply no_calls_app; [apply complaints_no_calls |].
  constructor; [discriminate | constructor].
Qed.

Lemma link_shown (s s1 s2 : session W) (choice prompt link : string) :
  input_choice (say MENU s) = (Ret choice, s1) ->
  input_link prompt s1 = (Ret link, s2) ->
  world s2 = world s
  /\ exists shown, console s2 = console s ++ shown /\ no_calls shown.
Proof.
  intros H1 H2. destruct (choice_shown _ _ _ H1) as (Hw & shown & Hlog & Hquiet).
  apply input_link_ret in H2 as (Hw2 & _ & Hlog2).
  split; [congruence |]. exists (shown ++ [Prompt prompt]).
  rewrite Hlog2, Hlog, <- app_assoc. split; [reflexivity |].
  apply no_calls_app; [exact Hquiet |]. constructor; [discriminate | constructor].
Qed.

Lemma no_calls_say (line : string) : no_calls [Out (EPrint line)].
Proof. constructor; [now intros ev [= <-] | constructor]. Qed.

(** What a turn shows, in each of its kinds. *)
Lemma turn_shows (s s' : session W) (r : option ending) :
  turn_kind s r s' ->
  exists shown, console s' = console s ++ shown /\ sends_follow_fetch shown.
Proof.
  intros Hturn. destruct Hturn.
  - apply input_choice_raise in H as (_ & _ & _ & _ & Hlog). simpl in Hlog.
    rewrite <- app_assoc in Hlog. eexists. split; [exact Hlog |].
    apply no_sends_follow_fetch, no_calls_no_sends.
    apply no_calls_app; [apply no_calls_say |].
    apply no_calls_app; [apply complaints_no_calls |].
    constructor; [discriminate | constructor].
  - destruct (choice_shown _ _ _ H) as (_ & shown & Hlog & Hquiet).
    exists (shown ++ [Out (EPrint MSG_BYE)]). simpl. rewrite Hlog, <- app_assoc.
    split; [reflexivity |]. apply no_sends_follow_fetch, no_calls_no_sends.
    apply no_calls_app; [exact Hquiet | apply no_calls_say].
  - destruct (choice_shown _ _ _ H) as (_ & shown & Hlog & Hquiet).
    apply input_link_raise in H2 as (_ & _ & _ & _ & Hlog2).
    exists (shown ++ [Prompt prompt]). rewrite Hlog2, Hlog, <- app_assoc.
    split; [reflexivity |]. apply no_sends_follow_fetch, no_calls_no_sends.
    apply no_calls_app; [exact Hquiet |]. constructor; [discriminate | constructor].
  - destruct (link_shown _ _ _ _ _ _ H H2) as (_ & shown & Hlog & Hquiet).
    exists (shown ++ [Out (EPrint MSG_INVALID_LINK)]). simpl.
    rewrite Hlog, <- app_assoc. split; [reflexivity |].
    apply no_sends_follow_fetch, no_calls_no_sends.
    apply no_calls_app; [exact Hquiet | apply no_calls_say].
  - destruct (link_shown _ _ _ _ _ _ H H2) as (_ & shown & Hlog & Hquiet).
    apply run_spec in H4 as (_ & evs & Hrun & Hlog3).
    destruct (fetch_videos_info_cases link choice (world s2) [])
      as (r0 & w' & evs' & Hret & Hnosend & _).
    rewrite Hret in Hrun. injection Hrun as _ _ <-.
    exists (shown ++ map Out evs'). rewrite Hlog3, Hlog, <- !app_assoc.
    split; [reflexivity |]. apply no_sends_follow_fetch.
    apply no_sends_app; [now apply no_calls_no_sends | now apply no_sends_out].
  - destruct (link_shown _ _ _ _ _ _ H H2) as (_ & shown & Hlog & Hquiet).
    apply run_spec in H4 as (_ & evs & Hrun & Hlog3).
    destruct (fetch_videos_info_cases link choice (world s2) [])
      as (r0 & w' & evs' & Hret & Hnosend & _).
    rewrite Hret in Hrun. injection Hrun as _ _ <-.
    exists (shown ++ map Out evs' ++ [Out (EPrint message)]). simpl.
    rewrite Hlog3, Hlog, <- !app_assoc. split; [reflexivity |].
    apply no_sends_follow_fetch.
    apply no_sends_app; [now apply no_calls_no_sends |].
    apply no_sends_app;
      [now apply no_sends_out | apply no_calls_no_sends, no_calls_say].
  - destruct (link_shown _ _ _ _ _ _ H H2) as (_ & shown & Hlog & Hquiet).
    apply run_spec in H4 as (_ & evs & Hrun & Hlog3).
    destruct (fetch_videos_info_cases link choice (world s2) [])
      as (r0 & w' & evs' & Hret & Hnosend & _ & _ & _ & Hres).
    rewrite Hret in Hrun. injection Hrun as -> _ <-.
    destruct (Hres _ eq_refl) as (_ & Hfetched & _).
    apply run_spec in H6 as (_ & evs4 & Hrun4 & Hlog4).
    destruct (send_all_events vs (world s3) []) as (r4 & w4 & evs4' & Hret4 & Hevs4).
    rewrite Hret4 in Hrun4. injection Hrun4 as -> _ <-.
    assert (Hupto : console s4
                    = console s ++ (shown ++ map Out evs') ++ map Out evs4')
      by (rewrite Hlog4, Hlog3, Hlog, <- !app_assoc; reflexivity).
    assert (Hall : sends_follow_fetch ((shown ++ map Out evs') ++ map Out evs4')).
    { apply sends_after_fetch.
      - apply no_sends_app; [now apply no_calls_no_sends | now apply no_sends_out].
      - clear - Hevs4 Hfetched.
        induction Hevs4 as [ | ev evs [_ Hev] _ IH]; simpl; constructor; auto.
        intros ev' [= <-] Hsend. destruct (Hev Hsend) as (v & c & rp & Hin & Hc & Heq).
        destruct (Hfetched vs v eq_refl Hin) as (o & u & Hcall).
        exists v, c, rp, o, u. split; [| auto].
        apply in_or_app. right. apply in_map_iff. eauto. }
    destruct r as [[] | e]; simpl.
    + exists (((shown ++ map Out evs') ++ map Out evs4') ++ [Out (EPrint MSG_DONE)]).
      rewrite Hupto, <- !app_assoc. split; [reflexivity |].
      rewrite !app_assoc. apply sends_follow_fetch_app;
        [rewrite <- !app_assoc; rewrite <- !app_assoc in Hall; exact Hall |].
      apply no_sends_follow_fetch, no_calls_no_sends, no_calls_say.
    + eexists. split; [exact Hupto | exact Hall].
Qed.

End MainProperties.
(** ** More on the prompts *)

(** X4.  [input_link] writes the prompt, reads one line and returns it
    without the white space around it, white space being what
    [str.isspace] says of a character: the characters of the line are
    those of the returned link between two runs of white space, and the
    link neither begins nor ends with white space.  Conversely, however
    the line is cut into white space, a trimmed core and white space,
    the core is what comes back. *)
Theorem input_link_trims {W} (prompt line : string) (rest : list string)
        (s : session W) :
  stdin s = line :: rest ->
  input_link prompt s
  = (Ret (strip line),
     {| world := world s; stdin := rest; console := console s ++ [Prompt prompt] |})
  /\ (exists pad1 core pad2,
        chars line = pad1 ++ core ++ pad2
        /\ all_space pad1 = true /\ all_space pad2 = true
        /\ trimmed core /\ strip line = join core
        /\ line = join pad1 +:+ strip line +:+ join pad2)
  /\ (forall pad1 core pad2,
        all_space pad1 = true -> all_space pad2 = true -> trimmed core ->
        chars line = pad1 ++ core ++ pad2 -> strip line = join core).
Proof.
  intros Hstdin. split; [| split].
  - unfold input_link, input. now rewrite Hstdin.
  - destruct (strip_decompose line) as (pad1 & core & pad2 & Heq & H1 & H2 & Hcore & Hs).
    exists pad1, core, pad2. repeat (split; [assumption |]).
    now apply strip_between with (core := core).
  - intros pad1 core pad2 H1 H2 Hcore Heq. now apply strip_padded with pad1 pad2.
Qed.

(** X5.  [input_choice] turns down, with one complaint each, the lines
    that are not 0, 1, 2 or 3 once trimmed, and returns the first line
    that is, trimmed; the lines after it stay unread.  If no line is a
    choice it ends in [EOFError] after the last one.  The services are
    not touched. *)
Theorem input_choice_returns_first_choice {W} (s : session W) :
  exists rejected,
    Forall (fun line => is_choice (strip line) = false) rejected
    /\ ((exists line rest,
           stdin s = rejected ++ line :: rest
           /\ (strip line = "0" \/ strip line = "1" \/ strip line = "2"
               \/ strip line = "3")
           /\ input_choice s
              = (Ret (strip line),
                 {| world := world s; stdin := rest;
                    console := console s ++ complaints rejected
                                         ++ [Prompt CHOICE_PROMPT] |}))
        \/ (stdin s = rejected
            /\ input_choice s
               = (Raise (OtherException "EOFError"),
                  {| world := world s; stdin := [];
                     console := console s ++ complaints rejected
                                          ++ [Prompt CHOICE_PROMPT] |}))).
Proof.
  destruct (input_choice_from_spec (stdin s) (world s) (console s))
    as (rejected & Hrej & [(line & rest & Hlines & Hvalid & Hrun) | [Hlines Hrun]]);
    exists rejected; (split; [exact Hrej |]).
  - left. exists line, rest. split; [exact Hlines |].
    split; [now apply is_choice_cases | exact Hrun].
  - right. split; [exact Hlines | exact Hrun].
Qed.

(** ** More on the fetcher and the notifier *)

Section MoreOnFetchAndSend.
Context {W : Type} `{!Services W}.

(** X6.  Whatever the link, the mode and the behaviour of the
    extraction service, a fetch calls no bot, and its first extraction
    call is among its events.  It raises exactly when, in a mode other
    than the single video, the listing that call returned holds a
    [None]; what it raises then is [TypeError].  Otherwise it returns
    either a list of records that is not empty, with no message, or no
    list with one of the two messages; every record it returns is what
    an extraction call of this fetch returned, and in single-video
    mode the list holds one record, which has a title. *)
Theorem fetch_videos_info_outcomes (url mode : string) (w : W) (tr : list event) :
  exists r (w' : W) (evs : list event),
    fetch_videos_info url mode (w, tr) = (r, (w', tr ++ evs))
    /\ Forall (fun ev => is_send ev = false) evs
    /\ In (EExtract (make_ydl_opts mode) url
                    (extract_info (make_ydl_opts mode) url w).1) evs
    /\ ((exists e, r = Raise e)
        <-> mode <> "1"
            /\ exists info es,
                 (extract_info (make_ydl_opts mode) url w).1 = Ret (Some info)
                 /\ entries info = Some (Some es) /\ In None es)
    /\ (forall e, r = Raise e -> e = OtherException "TypeError")
    /\ (forall res, r = Ret res ->
        fetch_result_ok res
        /\ (forall vs v, res.1 = Some vs -> In v vs -> fetched_in evs v)
        /\ (mode = "1" -> forall vs, res.1 = Some vs ->
            exists v, vs = [v] /\ is_Some (fields v !! "title"))).
Proof. apply fetch_videos_info_cases. Qed.

Lemma app_not_nil_r {A} (l : list A) (x : A) : l ++ [x] <> l.
Proof.
  intros Heq. apply (f_equal (@length A)) in Heq.
  rewrite length_app in Heq. simpl in Heq. lia.
Qed.

(** X7.  [send_video_info] raises [TypeError] before it calls the bot
    exactly when the record is ill-typed for the caption: its
    [duration] is a string, or neither [webpage_url] nor [url] is true
    and its [id] is there without being a string. *)
Theorem send_video_info_type_error (video : info_dict) (w : W) (tr : list event) :
  send_video_info video (w, tr) = (Raise (OtherException "TypeError"), (w, tr))
  <-> (truthy (get (fields video) "webpage_url") = false
       /\ truthy (get (fields video) "url") = false
       /\ exists v, fields video !! "id" = Some v /\ forall i, v <> PyStr i)
      \/ ((truthy (get (fields video) "webpage_url") = true
           \/ truthy (get (fields video) "url") = true
           \/ fields video !! "id" = None
           \/ exists i, fields video !! "id" = Some (PyStr i))
          /\ exists d, fields video !! "duration" = Some (PyStr d)).
Proof.
  destruct (send_video_info_events video w tr) as (r & w' & evs & Hrun & Hcases).
  rewrite Hrun. split.
  - intros [= -> -> Htr].
    destruct Hcases as [(_ & _ & e & [= <-] & Hcaption) | (c & rp & _ & -> & _)];
      [| now apply app_not_nil_r in Htr].
    clear Hrun Htr. unfold video_caption, video_link, get, get_default in *.
    destruct (truthy (default PyNone (fields video !! "webpage_url"))) eqn:Hwp.
    + right. split; [auto |].
      destruct (fields video !! "duration") as [[ | d | z] | ]; simpl in Hcaption;
        try discriminate; eauto.
      destruct (negb (Z.eqb _ 0)); discriminate.
    + destruct (truthy (default PyNone (fields video !! "url"))) eqn:Hurl.
      * right. split; [auto |].
        destruct (fields video !! "duration") as [[ | d | z] | ]; simpl in Hcaption;
          try discriminate; eauto.
        destruct (negb (Z.eqb _ 0)); discriminate.
      * destruct (fields video !! "id") as [[ | i | z] | ] eqn:Hid; simpl in Hcaption.
        -- left. repeat split; auto. eexists. split; [reflexivity | discriminate].
        -- right. split; [eauto 6 |].
           destruct (fields video !! "duration") as [[ | d | z] | ]; simpl in Hcaption;
             try discriminate; eauto.
           destruct (negb (Z.eqb _ 0)); discriminate.
        -- left. repeat split; auto. eexists. split; [reflexivity | discriminate].
        -- right. split; [auto |].
           destruct (fields video !! "duration") as [[ | d | z] | ]; simpl in Hcaption;
             try discriminate; eauto.
           destruct (negb (Z.eqb _ 0)); discriminate.
  - intros Hill.
    assert (Hcaption : video_caption video = Raise (OtherException "TypeError")).
    { unfold video_caption, video_link, get, get_default.
      destruct Hill as [(Hwp & Hurl & v & Hid & Hv) | (Hlink & d & Hd)].
      - unfold get in Hwp, Hurl. rewrite Hwp, Hurl, Hid. simpl.
        destruct v as [ | i | z]; try reflexivity. now destruct (Hv i).
      - rewrite Hd. simpl. unfold get in Hlink.
        destruct (truthy (default PyNone (fields video !! "webpage_url")));
          [reflexivity |].
        destruct (truthy (default PyNone (fields video !! "url"))); [reflexivity |].
        destruct Hlink as [Habs | [Habs | [-> | (i & ->)]]];
          try discriminate; reflexivity. }
    destruct Hcases as [(-> & -> & e & -> & He) | (c & rp & Hc & _)];
      [| congruence].
    rewrite app_nil_r. congruence.
Qed.

(** X8.  Sending a list of records is sending its first part and then,
    from the state that leaves, the rest; if the first part raises, the
    exception goes through and nothing of the rest is attempted. *)
Theorem send_all_app (before after : list info_dict) (w : W) (tr : list event) :
  send_all (before ++ after) (w, tr)
  = match send_all before (w, tr) with
    | (Ret _, st) => send_all after st
    | (Raise e, st) => (Raise e, st)
    end.
Proof.
  revert w tr. induction before as [ | video rest IH]; intros w tr; [reflexivity |].
  simpl. unfold bind, print, sleep, emit.
  destruct (send_video_info video _) as [[success | e] [w1 tr1]]; [| reflexivity].
  destruct success; simpl; apply IH.
Qed.

End MoreOnFetchAndSend.

(** ** The run of [main] *)

Section MainTheorems.
Context {W : Type} `{!Services W} {UD : UnicodeData}.

(** X9.  On every finite input the loop of [main] comes to an end: one
    turn more than there are lines is enough, more turns change
    nothing, and the lines left at the end are the last lines of the
    input. *)
Theorem main_terminates (s : session W) :
  exists e s',
    main s = Some (e, s')
    /\ (forall fuel, (length (stdin s) < fuel)%nat -> main_loop fuel s = Some (e, s'))
    /\ exists read, stdin s = read ++ stdin s'.
Proof.
  destruct (main_loop_enough (S (length (stdin s))) s) as (e & s' & Hrun); [lia |].
  exists e, s'. split; [apply Hrun; lia |]. split; [exact Hrun |].
  apply (main_loop_invariant (fun s1 => exists read, stdin s = read ++ stdin s1))
    with (fuel := S (length (stdin s))) (s := s) (e := e).
  - intros s1 r s2 (read & Heq) Hturn.
    destruct (turn_consumes _ _ _ Hturn) as (read' & Heq' & _).
    exists (read ++ read'). now rewrite <- app_assoc, <- Heq'.
  - now exists [].
  - apply Hrun. lia.
Qed.

Lemma turn_without_valid_link (s s' : session W) (r : option ending) :
  turn_kind s r s' ->
  Forall (fun line => forall mode, validate_link (strip line) mode = false) (stdin s) ->
  world s' = world s
  /\ Forall (fun line => forall mode, validate_link (strip line) mode = false) (stdin s')
  /\ exists shown, console s' = console s ++ shown /\ no_calls shown.
Proof.
  intros Hturn Hnone.
  assert (Hrest : Forall (fun line => forall mode, validate_link (strip line) mode = false)
                         (stdin s')).
  { destruct (turn_consumes _ _ _ Hturn) as (read & Heq & _).
    rewrite Heq in Hnone. now apply Forall_app in Hnone as [_ ?]. }
  assert (Hlinked : forall choice prompt link s1 s2,
    input_choice (say MENU s) = (Ret choice, s1) ->
    input_link prompt s1 = (Ret link, s2) ->
    validate_link link choice = false).
  { intros choice prompt link s1 s2 H1 H2.
    apply input_choice_ret in H1 as (_ & _ & rejected & l & Hlines & _).
    apply input_link_ret in H2 as (_ & (line & Hline & ->) & _).
    simpl in Hlines. rewrite Hlines, Hline in Hnone.
    apply Forall_app in Hnone as [_ Hnone].
    apply Forall_cons in Hnone as [_ Hnone].
    apply Forall_cons in Hnone as [Hnone _]. apply Hnone. }
  split; [| split; [exact Hrest |]]; destruct Hturn.
  - now apply input_choice_raise in H as (_ & Hw & _).
  - now destruct (choice_shown _ _ _ H) as (Hw & _).
  - destruct (choice_shown _ _ _ H) as (Hw & _).
    apply input_link_raise in H2 as (_ & Hw2 & _). congruence.
  - now destruct (link_shown _ _ _ _ _ _ H H2) as (Hw & _).
  - rewrite (Hlinked _ _ _ _ _ H H2) in H3. discriminate.
  - rewrite (Hlinked _ _ _ _ _ H H2) in H3. discriminate.
  - rewrite (Hlinked _ _ _ _ _ H H2) in H3. discriminate.
  - apply input_choice_raise in H as (_ & _ & _ & _ & Hlog). simpl in Hlog.
    rewrite <- app_assoc in Hlog. eexists. split; [exact Hlog |].
    apply no_calls_app; [apply no_calls_say |].
    apply no_calls_app; [apply complaints_no_calls |].
    constructor; [discriminate | constructor].
  - destruct (choice_shown _ _ _ H) as (_ & shown & Hlog & Hquiet).
    exists (shown ++ [Out (EPrint MSG_BYE)]). simpl. rewrite Hlog, <- app_assoc.
    split; [reflexivity |]. apply no_calls_app; [exact Hquiet | apply no_calls_say].
  - destruct (choice_shown _ _ _ H) as (_ & shown & Hlog & Hquiet).
    apply input_link_raise in H2 as (_ & _ & _ & _ & Hlog2).
    exists (shown ++ [Prompt prompt]). rewrite Hlog2, Hlog, <- app_assoc.
    split; [reflexivity |].
    apply no_calls_app; [exact Hquiet |]. constructor; [discriminate | constructor].
  - destruct (link_shown _ _ _ _ _ _ H H2) as (_ & shown & Hlog & Hquiet).
    exists (shown ++ [Out (EPrint MSG_INVALID_LINK)]). simpl.
    rewrite Hlog, <- app_assoc. split; [reflexivity |].
    apply no_calls_app; [exact Hquiet | apply no_calls_say].
  - rewrite (Hlinked _ _ _ _ _ H H2) in H3. discriminate.
  - rewrite (Hlinked _ _ _ _ _ H H2) in H3. discriminate.
  - rewrite (Hlinked _ _ _ _ _ H H2) in H3. discriminate.
Qed.

(** X10.  The validation is a gate: when no line of the input, once
    trimmed, is a valid link, a run of [main] calls neither the
    extraction service nor the bot, and leaves the world of the
    services as it found it. *)
Theorem main_without_valid_link_calls_nothing
        (fuel : nat) (s s' : session W) (e : ending) :
  Forall (fun line => forall mode, validate_link (strip line) mode = false) (stdin s) ->
  main_loop fuel s = Some (e, s') ->
  world s' = world s
  /\ exists shown, console s' = console s ++ shown /\ no_calls shown.
Proof.
  intros Hnone Hrun.
  pose proof (main_loop_invariant
    (fun s1 =>
       Forall (fun line => forall mode, validate_link (strip line) mode = false) (stdin s1)
       /\ world s1 = world s
       /\ exists shown, console s1 = console s ++ shown /\ no_calls shown)) as Hinv.
  destruct (Hinv) with (fuel := fuel) (s := s) (e := e) (s' := s')
    as (_ & Hw & Hshown); auto.
  - intros s1 r s2 (Hnone1 & Hw1 & shown1 & Hlog1 & Hquiet1) Hturn.
    destruct (turn_without_valid_link _ _ _ Hturn Hnone1)
      as (Hw2 & Hnone2 & shown2 & Hlog2 & Hquiet2).
    split; [exact Hnone2 |]. split; [congruence |].
    exists (shown1 ++ shown2). rewrite Hlog2, Hlog1, <- app_assoc.
    split; [reflexivity | now apply no_calls_app].
  - split; [exact Hnone |]. split; [reflexivity |].
    exists []. rewrite app_nil_r. split; [reflexivity | constructor].
Qed.

(** X11.  In a run of [main] the bot is only ever called with the
    caption of a record that an extraction call of the same run
    returned: before every send shown on the terminal, the terminal
    shows the extraction call that returned the record sent. *)
Theorem main_sends_only_fetched_records (fuel : nat) (s s' : session W) (e : ending) :
  main_loop fuel s = Some (e, s') ->
  exists shown, console s' = console s ++ shown /\ sends_follow_fetch shown.
Proof.
  apply (main_loop_invariant
           (fun s1 => exists shown, console s1 = console s ++ shown
                                    /\ sends_follow_fetch shown)).
  - intros s1 r s2 (shown1 & Hlog1 & Hsent1) Hturn.
    destruct (turn_shows _ _ _ Hturn) as (shown2 & Hlog2 & Hsent2).
    exists (shown1 ++ shown2). rewrite Hlog2, Hlog1, <- app_assoc.
    split; [reflexivity | now apply sends_follow_fetch_app].
  - exists []. rewrite app_nil_r. split; [reflexivity |].
    intros before ev after Heq. now destruct before.
Qed.

(** X12.  Take a run of [main] in which, as the terminal shows at the
    end, every send that failed failed with [TelegramError], and every
    record that an extraction call returned is well typed for the
    caption and lists no [None] entry.  It ends in one of two ways: the
    user chose 0, the farewell is the last line shown and the exit code
    is 0; or the input ran out and [EOFError] goes uncaught. *)
Theorem main_ends_by_exit_or_end_of_input
        (fuel : nat) (s s' : session W) (e : ending) :
  main_loop fuel s = Some (e, s') ->
  (forall chat photo caption ex,
      In (Out (ESendPhoto chat photo caption (Raise ex))) (console s') ->
      ex = TelegramError) ->
  (forall chat text ex,
      In (Out (ESendMessage chat text (Raise ex))) (console s') ->
      ex = TelegramError) ->
  (forall opts url info,
      In (Out (EExtract opts url (Ret (Some info)))) (console s') ->
      (exists caption, video_caption info = Ret caption)
      /\ (forall es, entries info = Some (Some es) -> ~ In None es)) ->
  (e = Exit 0 /\ exists shown, console s' = shown ++ [Out (EPrint MSG_BYE)])
  \/ (e = Uncaught (OtherException "EOFError") /\ stdin s' = []).
Proof.
  intros Hrun Hphoto Hmessage Htyped.
  destruct (main_loop_last_turn _ _ _ _ Hrun) as (s0 & Hturn).
  inversion Hturn as [ s1 H1 | s1 H1 | choice prompt s1 s2 H1 Hc Hp H2
                     |
                     | choice prompt link s1 s2 s3 e0 H1 Hc Hp H2 Hv H3
                     |
                     | choice prompt link s1 s2 s3 s4 vs r H1 Hc Hp H2 Hv H3 Hne H4 Hr ];
    subst.
  - right. split; [reflexivity |]. now apply input_choice_raise in H1 as (_ & _ & ? & _).
  - left. split; [reflexivity |]. simpl. eauto.
  - right. split; [reflexivity |]. now apply input_link_raise in H2 as (_ & _ & _ & ? & _).
  - exfalso. apply run_spec in H3 as (_ & evs & Hfetch & Hlog).
    destruct (fetch_videos_info_cases link choice (world s2) [])
      as (r0 & w' & evs' & Hret & _ & Hfirst & Hraises & _).
    rewrite Hret in Hfetch. injection Hfetch as -> _ <-.
    destruct (proj1 Hraises (ex_intro _ e0 eq_refl)) as (_ & info & es & Hreply & Hes & Hin).
    rewrite Hreply in Hfirst.
    destruct (Htyped (make_ydl_opts choice) link info) as (_ & Hnone).
    + rewrite Hlog. apply in_or_app. right. apply in_map_iff. eauto.
    + exact (Hnone es Hes Hin).
  - destruct r as [[] | ex]; [discriminate |]. exfalso.
    apply run_spec in H3 as (_ & evs & Hfetch & Hlog3).
    destruct (fetch_videos_info_cases link choice (world s2) [])
      as (r0 & w' & evs' & Hret & _ & _ & _ & _ & Hres).
    rewrite Hret in Hfetch. injection Hfetch as -> _ <-.
    destruct (Hres _ eq_refl) as (_ & Hfetched & _).
    apply run_spec in H4 as (_ & evs4 & Hsend & Hlog4).
    apply send_all_raises in Hsend
      as [(v & Hin & Hcaption) | (Hne' & evs5 & v & caption & -> & Hin)].
    + destruct (Hfetched vs v eq_refl Hin) as (o & u & Hcall).
      destruct (Htyped o u v) as ((caption & Hc') & _); [| congruence].
      simpl. rewrite Hlog4, Hlog3. apply in_or_app. left. apply in_or_app. right.
      apply in_map_iff. eauto.
    + assert (Hshown : In (Out (send_event v caption (Raise ex))) (console s4)).
      { rewrite Hlog4. apply in_or_app. right. apply in_map_iff. eauto. }
      unfold send_event in Hshown. destruct (truthy _).
      * apply Hphoto in Hshown. contradiction.
      * apply Hmessage in Hshown. contradiction.
Qed.

(** X13.  When the first line that is a choice is 0, [main] shows the
    menu, turns down the lines before it, says farewell and exits with
    code 0: it reads nothing further and calls no service. *)
Theorem main_exits_on_zero (s : session W) (rejected : list string) (line : string)
        (rest : list string) :
  stdin s = rejected ++ line :: rest ->
  Forall (fun l => is_choice (strip l) = false) rejected ->
  strip line = "0" ->
  main s
  = Some (Exit 0,
          {| world := world s; stdin := rest;
             console := console s ++ [Out (EPrint MENU)] ++ complaints rejected
                                  ++ [Prompt CHOICE_PROMPT; Out (EPrint MSG_BYE)] |}).
Proof.
  intros Hlines Hrej Hzero. unfold main. simpl. unfold main_turn.
  assert (Hchoice : input_choice (say MENU s)
                    = (Ret "0",
                       {| world := world s; stdin := rest;
                          console := (console s ++ [Out (EPrint MENU)])
                                       ++ complaints rejected ++ [Prompt CHOICE_PROMPT] |})).
  { unfold input_choice. simpl. rewrite Hlines. clear Hlines.
    generalize (console s ++ [Out (EPrint MENU)]).
    induction Hrej as [ | l rejected Hl _ IH]; intros log; simpl.
    - rewrite Hzero. reflexivity.
    - rewrite Hl, IH. now rewrite <- !app_assoc. }
  rewrite Hchoice. simpl. unfold say. simpl. now rewrite <- !app_assoc.
Qed.

(** X14.  A whole turn in single-video mode.  The user types 1 and a
    link that validates; the service answers a record with a title
    whose caption can be built; the bot answers or fails with
    [TelegramError].  Then the turn shows the menu and the two prompts,
    fetches with one extraction call, makes one send, sleeps half a
    second after a success or prints the warning after a failure, and
    prints the completion line in both cases; the loop goes round. *)
Theorem single_video_turn (s : session W) (line1 line2 : string) (rest : list string)
        (info : info_dict) (w1 : W) (caption : string) :
  stdin s = line1 :: line2 :: rest ->
  strip line1 = "1" ->
  validate_link (strip line2) "1" = true ->
  extract_info (make_ydl_opts "1") (strip line2) (world s) = (Ret (Some info), w1) ->
  is_Some (fields info !! "title") ->
  video_caption info = Ret caption ->
  let thumbnail := get (fields info) "thumbnail" in
  let answer :=
    if truthy thumbnail
    then send_photo TELEGRAM_CHAT_ID thumbnail caption w1
    else send_message TELEGRAM_CHAT_ID caption w1 in
  answer.1 = Ret tt \/ answer.1 = Raise TelegramError ->
  main_turn s
  = (None,
     {| world := answer.2; stdin := rest;
        console :=
          console s
          ++ [Out (EPrint MENU); Prompt CHOICE_PROMPT; Prompt "Enter YouTube video URL: ";
              Out (EPrint MSG_FETCHING);
              Out (EExtract (make_ydl_opts "1") (strip line2) (Ret (Some info)));
              Out (EPrint (sending_line (get_default (fields info) "title"
                                                     (PyStr "Unknown Title"))));
              Out (send_event info caption answer.1);
              Out (match answer.1 with
                   | Ret _ => ESleep (1 # 2)
                   | Raise _ => EPrint MSG_SEND_FAILED
                   end);
              Out (EPrint MSG_DONE)] |}).
Proof.
  intros Hlines Hone Hvalid Hcall Htitle Hcaption thumbnail answer Hanswer.
  unfold main_turn, input_choice. simpl. rewrite Hlines. simpl.
  rewrite Hone. simpl. unfold input_link, input. simpl. rewrite Hvalid. simpl.
  unfold run. simpl.
  rewrite (fetch_single_record (strip line2) (world s) w1 [] info Hcall).
  unfold has_key. rewrite bool_decide_eq_true_2 by exact Htitle. simpl.
  unfold bind at 1. unfold print, emit. unfold bind at 1.
  rewrite (send_video_info_run info caption) by exact Hcaption.
  fold thumbnail. fold answer.
  destruct Hanswer as [Hreply | Hreply]; rewrite Hreply; simpl;
    unfold bind, ret, sleep, emit, say; simpl; rewrite <- !app_assoc; reflexivity.
Qed.

End MainTheorems.
(** ** The further properties on the sample sessions *)

Import Sessions.

Lemma validate_link_accepted_shapes_witness :
  validate_link "https://youtu.be/abc123?t=10" "1" = true
  /\ validate_link "https://youtu.be/été" "1" = true
  /\ validate_link "https://youtu.be/日本" "1" = true
  /\ validate_link "youtube.com/playlist?list=٣" "2" = true.
Proof.
  split; [| split; [| split]].
  - apply (proj2 (validate_link_accepted_shapes "https://youtu.be/abc123?t=10" "1")).
    exists "https://youtu.be/", 97%N, (decode "bc123?t=10").
    split; [vm_compute; auto 20 |]. split; vm_compute; reflexivity.
  - apply (proj2 (validate_link_accepted_shapes "https://youtu.be/été" "1")).
    exists "https://youtu.be/", 233%N, (decode "té").
    split; [vm_compute; auto 20 |]. split; vm_compute; reflexivity.
  - apply (proj2 (validate_link_accepted_shapes "https://youtu.be/日本" "1")).
    exists "https://youtu.be/", 26085%N, (decode "本").
    split; [vm_compute; auto 20 |]. split; vm_compute; reflexivity.
  - apply (proj2 (validate_link_accepted_shapes "youtube.com/playlist?list=٣" "2")).
    exists "youtube.com/playlist?list=", 1635%N, [].
    split; [vm_compute; auto 20 |]. split; vm_compute; reflexivity.
Defined.

Lemma validate_link_modes_exclusive_witness :
  validate_link "https://www.youtube.com/playlist?list=PL123" "2" = true
  /\ "2" = "2".
Proof.
  assert (Hplaylist : validate_link "https://www.youtube.com/playlist?list=PL123" "2" = true)
    by (vm_compute; reflexivity).
  split; [exact Hplaylist |].
  exact (validate_link_modes_exclusive _ "2" "2" Hplaylist Hplaylist).
Defined.

Lemma validate_link_after_head_witness :
  validate_link "www.youtube.com/user/" "3" = false
  /\ validate_link "www.youtube.com/user/?x" "3" = false
  /\ validate_link "www.youtube.com/user/½x" "3" = true.
Proof.
  assert (Hin : In "www.youtube.com/user/" (link_heads "3")) by (vm_compute; auto 30).
  destruct (validate_link_after_head "3" "www.youtube.com/user/" Hin) as [Hhead Hnext].
  split; [exact Hhead |]. split.
  - rewrite (Hnext "www.youtube.com/user/?x" 63%N (decode "x")); reflexivity.
  - rewrite (Hnext "www.youtube.com/user/½x" 189%N (decode "x")); reflexivity.
Defined.

Lemma input_link_trims_witness :
  (input_link "Enter YouTube video URL: "
              {| world := tt; stdin := ["  https://youtu.be/abc123 "; "0"]; console := [] |}).1
  = Ret "https://youtu.be/abc123".
Proof.
  rewrite (proj1 (input_link_trims "Enter YouTube video URL: " "  https://youtu.be/abc123 "
                    ["0"] {| world := tt; stdin := ["  https://youtu.be/abc123 "; "0"];
                             console := [] |} eq_refl)).
  vm_compute. reflexivity.
Defined.

(** A choice typed after a no-break space is taken at once. *)
Lemma input_choice_padded_example :
  input_choice {| world := tt; stdin := [" 1"; "0"]; console := [] |}
  = (Ret "1", {| world := tt; stdin := ["0"]; console := [Prompt CHOICE_PROMPT] |}).
Proof. vm_compute. reflexivity. Qed.

Lemma send_video_info_type_error_witness :
  send_video_info rec_bad_duration (Samples.nothing_scripted, [])
  = (Raise (OtherException "TypeError"), (Samples.nothing_scripted, [])).
Proof.
  apply (proj2 (send_video_info_type_error rec_bad_duration Samples.nothing_scripted [])).
  right. split.
  - right. right. right. exists "abc123". vm_compute. reflexivity.
  - exists "2:05". vm_compute. reflexivity.
Defined.

Lemma no_link_lines_invalid :
  Forall (fun line => forall mode, validate_link (strip line) mode = false) (stdin no_link).
Proof.
  repeat constructor; intros mode; unfold validate_link;
    destruct (String.eqb mode "1"), (String.eqb mode "2"), (String.eqb mode "3");
    vm_compute; reflexivity.
Qed.

Lemma main_without_valid_link_calls_nothing_witness :
  exists e s',
    main no_link = Some (e, s')
    /\ world s' = world no_link
    /\ exists shown, console s' = console no_link ++ shown /\ no_calls shown.
Proof.
  destruct (main no_link) as [[e s'] | ] eqn:Hrun;
    [| vm_compute in Hrun; discriminate].
  exists e, s'. split; [reflexivity |].
  exact (main_without_valid_link_calls_nothing _ no_link s' e no_link_lines_invalid Hrun).
Defined.

Lemma main_sends_only_fetched_records_witness :
  exists e s' shown,
    main one_video = Some (e, s')
    /\ console s' = console one_video ++ shown
    /\ sends_follow_fetch (W := Script.script) shown.
Proof.
  destruct (main one_video) as [[e s'] | ] eqn:Hrun;
    [| vm_compute in Hrun; discriminate].
  destruct (main_sends_only_fetched_records _ one_video s' e Hrun)
    as (shown & Hlog & Hsent).
  exists e, s', shown. split; [reflexivity |]. split; [exact Hlog | exact Hsent].
Defined.

(** What the terminal shows at the end of the session [one_video]. *)
Lemma one_video_run :
  exists s', main one_video = Some (Exit 0, s')
             /\ console s'
                = [Out (EPrint MENU); Prompt CHOICE_PROMPT;
                   Prompt "Enter YouTube video URL: ";
                   Out (EPrint MSG_FETCHING);
                   Out (EExtract (make_ydl_opts "1") "https://youtu.be/abc123"
                                 (Ret (Some Samples.rec_demo)));
                   Out (EPrint (sending_line (PyStr "Demo")));
                   Out (ESendMessage TELEGRAM_CHAT_ID
                          (make_caption (PyStr "Demo") (PyStr "https://youtu.be/abc123")
                                        "2:05" "Unknown")
                          (Raise TelegramError));
                   Out (EPrint MSG_SEND_FAILED);
                   Out (EPrint MSG_DONE);
                   Out (EPrint MENU); Prompt CHOICE_PROMPT;
                   Out (EPrint MSG_BYE)].
Proof. eexists. split; vm_compute; reflexivity. Qed.

Lemma main_ends_by_exit_or_end_of_input_witness :
  exists e s',
    main one_video = Some (e, s')
    /\ ((e = Exit 0 /\ exists shown, console s' = shown ++ [Out (EPrint MSG_BYE)])
        \/ (e = Uncaught (OtherException "EOFError") /\ stdin s' = [])).
Proof.
  destruct one_video_run as (s1 & Hrun1 & Hlog).
  destruct (main one_video) as [[e s'] | ] eqn:Hrun; [| discriminate].
  injection Hrun1 as -> ->.
  exists (Exit 0), s1. split; [reflexivity |].
  apply (main_ends_by_exit_or_end_of_input (S (length (stdin one_video)))
           one_video s1 (Exit 0) Hrun); rewrite Hlog.
  - intros chat photo caption ex Hin. simpl in Hin.
    repeat (destruct Hin as [Hin | Hin]; [discriminate Hin |]). destruct Hin.
  - intros chat text ex Hin. simpl in Hin.
    repeat (destruct Hin as [Hin | Hin]; [try discriminate Hin |]);
      [now injection Hin as _ _ <- | destruct Hin].
  - intros opts url info Hin. simpl in Hin.
    repeat (destruct Hin as [Hin | Hin]; [try discriminate Hin |]);
      [injection Hin as _ _ <- | destruct Hin].
    split; [eexists; reflexivity | discriminate].
Defined.

Lemma main_exits_on_zero_witness :
  main leaving
  = Some (Exit 0,
          {| world := world leaving; stdin := ["1"];
             console := [Out (EPrint MENU); Prompt CHOICE_PROMPT;
                         Out (EPrint MSG_INVALID_CHOICE); Prompt CHOICE_PROMPT;
                         Out (EPrint MSG_BYE)] |}).
Proof.
  refine (main_exits_on_zero leaving ["x"] " 0 " ["1"] _ _ _).
  - reflexivity.
  - repeat constructor.
  - reflexivity.
Defined.

Lemma single_video_turn_witness :
  (main_turn one_video).1 = None
  /\ stdin (main_turn one_video).2 = ["0"]
  /\ last (console (main_turn one_video).2) = Some (Out (EPrint MSG_DONE)).
Proof.
  assert (Hcaption : video_caption Samples.rec_demo
                     = Ret (make_caption (PyStr "Demo") (PyStr "https://youtu.be/abc123")
                                         "2:05" "Unknown")) by reflexivity.
  assert (Htitle : is_Some (fields Samples.rec_demo !! "title")) by (eexists; reflexivity).
  assert (Hvalid : validate_link (strip " https://youtu.be/abc123 ") "1" = true)
    by (vm_compute; reflexivity).
  assert (Hcall : extract_info (make_ydl_opts "1") (strip " https://youtu.be/abc123 ")
                               (world one_video)
                  = (Ret (Some Samples.rec_demo),
                     {| Script.extract_script := []; Script.send_script := [false] |}))
    by reflexivity.
  pose proof (single_video_turn one_video "1" " https://youtu.be/abc123 " ["0"]
                Samples.rec_demo _ _ eq_refl eq_refl Hvalid Hcall Htitle Hcaption)
    as Hturn.
  cbv zeta in Hturn. rewrite Hturn by (right; reflexivity).
  repeat split.
Defined.

(** The same turn when the choice and the link are typed between
    no-break and em spaces. *)
Lemma padded_video_turn_example :
  (main_turn padded_video).1 = None
  /\ stdin (main_turn padded_video).2 = ["0"]
  /\ List.filter (fun ce => match ce with Out ev => is_call ev | Prompt _ => false end)
                 (console (main_turn padded_video).2)
     = [Out (EExtract (make_ydl_opts "1") "https://youtu.be/abc123"
                      (Ret (Some Samples.rec_demo)));
        Out (ESendMessage TELEGRAM_CHAT_ID
               (make_caption (PyStr "Demo") (PyStr "https://youtu.be/abc123")
                             "2:05" "Unknown")
               (Ret tt))].
Proof. repeat split; vm_compute; reflexivity. Qed.


Lemma format_duration_injective_witness : 3725 = 3725.
Proof.
  apply format_duration_injective. reflexivity.
Defined.
